(** * GlusterFS block driver (block/gluster.c): shallow embedding

    The driver is modelled the way the C file is written:
    - C strings are [string]s (the end of the [string] is the terminating
      NUL), a [char *] that may be [NULL] is an [option string], and a
      pointer into a string is the suffix it points at;
    - [int], [int64_t], [ssize_t], [size_t] and [off_t] are [Z] with the
      conversions between them written out (LP64 host: [int] has 32 bits,
      the other four have 64); [errno] and the [int] results of the
      library are [Z], compared and negated as they are;
    - the GlusterFS client library, the URI parser and the option machinery
      are not part of the file: the library is an oracle that answers each
      call in turn (return value and the [errno] it leaves), the two parsers
      are section variables. *)

From Stdlib Require Import ZArith String Ascii List Bool Lia.
From stdpp Require Import gmap.
Import ListNotations.

Local Open Scope Z_scope.

(** ** Constants the file takes from system and QEMU headers *)

Definition EIO : Z := 5.
Definition EINVAL : Z := 22.

(** Modelled from the spec: [BDRV_SECTOR_SIZE] is defined in the block
    layer's headers (an [unsigned long long] there); the spec fixes a
    sector at 512 bytes. *)
Definition BDRV_SECTOR_SIZE : Z := 512.

(** ** C strings *)

Module CString.

Fixpoint mem (c : ascii) (set : string) : bool :=
  match set with
  | EmptyString => false
  | String d set' => if Ascii.eqb c d then true else mem c set'
  end.

(** [strspn s accept]: length of the initial segment of [s] made of
    characters of [accept]. *)
Fixpoint strspn (s accept : string) : nat :=
  match s with
  | EmptyString => O
  | String c s' => if mem c accept then S (strspn s' accept) else O
  end.

(** [strcspn s reject]: length of the initial segment of [s] free of
    characters of [reject]. *)
Fixpoint strcspn (s reject : string) : nat :=
  match s with
  | EmptyString => O
  | String c s' => if mem c reject then O else S (strcspn s' reject)
  end.

(** [p + n] for a pointer [p] into a string, [n] within the string. *)
Fixpoint advance (p : string) (n : nat) {struct n} : string :=
  match n, p with
  | O, _ => p
  | S n', String _ p' => advance p' n'
  | S _, EmptyString => EmptyString
  end.

(** [*p == '\0'] *)
Definition at_nul (p : string) : bool :=
  match p with EmptyString => true | String _ _ => false end.

Fixpoint g_strndup (s : string) (n : nat) : string :=
  match n, s with
  | S n', String c s' => String c (g_strndup s' n')
  | _, _ => EmptyString
  end.

Definition g_strdup (s : option string) : option string := s.

(** [!strcmp (a, b)] *)
Definition streq (a b : string) : bool := String.eqb a b.

End CString.
Import CString.

(** ** The connection descriptor *)

Record GlusterConf := mkGlusterConf {
  server : option string;
  port : Z;
  volname : option string;
  image : option string;
  transport : option string
}.

(** [g_malloc0 (sizeof (GlusterConf))] *)
Definition gconf_zero : GlusterConf :=
  {| server := None; port := 0; volname := None; image := None;
     transport := None |}.

Definition set_server (g : GlusterConf) (v : option string) : GlusterConf :=
  {| server := v; port := port g; volname := volname g; image := image g;
     transport := transport g |}.
Definition set_port (g : GlusterConf) (v : Z) : GlusterConf :=
  {| server := server g; port := v; volname := volname g; image := image g;
     transport := transport g |}.
Definition set_volname (g : GlusterConf) (v : option string) : GlusterConf :=
  {| server := server g; port := port g; volname := v; image := image g;
     transport := transport g |}.
Definition set_image (g : GlusterConf) (v : option string) : GlusterConf :=
  {| server := server g; port := port g; volname := volname g; image := v;
     transport := transport g |}.
Definition set_transport (g : GlusterConf) (v : option string) : GlusterConf :=
  {| server := server g; port := port g; volname := volname g;
     image := image g; transport := v |}.

(** [parse_volume_options]: the new descriptor is returned next to the
    status, since a failure after the volume name leaves the name stored. *)
Definition parse_volume_options (gconf : GlusterConf) (path : option string)
  : Z * GlusterConf :=
  match path with
  | None => (- EINVAL, gconf)
  | Some path =>
      (* volume *)
      let q := advance path (strspn path "/") in
      let n := strcspn q "/" in
      let p := advance q n in
      if at_nul p then (- EINVAL, gconf)
      else
        let gconf := set_volname gconf (Some (g_strndup q n)) in
        (* image *)
        let p := advance p (strspn p "/") in
        if at_nul p then (- EINVAL, gconf)
        else (0, set_image gconf (g_strdup (Some p)))
  end.

(** ** URIs *)

(** Modelled from the spec: the [URI] structure and [QueryParams] are
    declared in qemu/uri.h.  The driver reads the scheme, the authority's
    host and port, the path and the query; an absent string is [NULL], and
    the port is an [int] that is 0 when the authority has none. *)
Record URI := mkURI {
  uri_scheme : option string;
  uri_server : option string;
  uri_port : Z;
  uri_path : option string;
  uri_query : option string
}.

Record QueryParam := mkQueryParam {
  qp_name : string;
  qp_value : option string
}.

(** [qp->p] with [qp->n] its length. *)
Definition QueryParams := list QueryParam.

Definition qp_n (qp : QueryParams) : Z := Z.of_nat (List.length qp).

Section Parseuri.

(** The parsers of util/uri.c, outside the driver. *)
Variable uri_parse : option string -> option URI.
Variable query_params_parse : option string -> QueryParams.

(** The part of [qemu_gluster_parseuri] after [query_params_parse]. *)
Definition parseuri_query (gconf : GlusterConf) (uri : URI) (is_unix : bool)
  : Z * GlusterConf :=
  let qp := query_params_parse (uri_query uri) in
  if (1 <? qp_n qp) || (is_unix && (qp_n qp =? 0))
     || (negb is_unix && negb (qp_n qp =? 0))
  then (- EINVAL, gconf)
  else if is_unix then
    if (match uri_server uri with Some _ => true | None => false end)
       || negb (uri_port uri =? 0)
    then (- EINVAL, gconf)
    else
      match qp with
      | p0 :: _ =>
          if negb (streq (qp_name p0) "socket") then (- EINVAL, gconf)
          else (0, set_server gconf (g_strdup (qp_value p0)))
      | [] => (- EINVAL, gconf) (* excluded by the test on [qp->n] *)
      end
  else
    let gconf :=
      set_server gconf
        (g_strdup (match uri_server uri with
                   | Some s => Some s
                   | None => Some "localhost"%string
                   end)) in
    (0, set_port gconf (uri_port uri)).

Definition qemu_gluster_parseuri (gconf : GlusterConf)
    (filename : option string) : Z * GlusterConf :=
  match uri_parse filename with
  | None => (- EINVAL, gconf)
  | Some uri =>
      (* transport *)
      let sch (s : string) : bool :=
        match uri_scheme uri with
        | Some x => streq x s
        | None => false
        end in
      let tr : option (GlusterConf * bool) :=
        if (match uri_scheme uri with None => true | Some _ => false end)
           || sch "gluster"%string
        then Some (set_transport gconf (Some "tcp"%string), false)
        else if sch "gluster+tcp"%string
        then Some (set_transport gconf (Some "tcp"%string), false)
        else if sch "gluster+unix"%string
        then Some (set_transport gconf (Some "unix"%string), true)
        else if sch "gluster+rdma"%string
        then Some (set_transport gconf (Some "rdma"%string), false)
        else None in
      match tr with
      | None => (- EINVAL, gconf)
      | Some (gconf, is_unix) =>
          let '(ret, gconf) := parse_volume_options gconf (uri_path uri) in
          if ret <? 0 then (ret, gconf)
          else parseuri_query gconf uri is_unix
      end
  end.

End Parseuri.

(** ** Integer conversions (LP64) *)

Definition to_uint64 (x : Z) : Z := x mod 2 ^ 64.
Definition to_int64 (x : Z) : Z := (x + 2 ^ 63) mod 2 ^ 64 - 2 ^ 63.
Definition to_int (x : Z) : Z := (x + 2 ^ 31) mod 2 ^ 32 - 2 ^ 31.

Definition INT_MIN : Z := - 2 ^ 31.
Definition INT_MAX : Z := 2 ^ 31 - 1.
Definition INT64_MAX : Z := 2 ^ 63 - 1.

(** ** The world the driver runs in *)

(** A [struct glfs *], a [struct glfs_fd *], a [QEMUBH *], a [Coroutine *]
    or the address of a [GlusterAIOCB]; [NULL] is [None]. *)
Definition handle := positive.

Record GlusterAIOCB := mkGlusterAIOCB {
  acb_size : Z;                 (* int64_t size *)
  acb_ret : Z;                  (* int ret *)
  acb_bh : option handle;       (* QEMUBH *bh *)
  acb_coroutine : handle        (* Coroutine *coroutine *)
}.

Record BDRVGlusterState := mkBDRVGlusterState {
  glfs : option handle;
  fd : option handle
}.

(** What the callers get through [Error **errp]. *)
Inductive Error :=
| Usage_error
| Connection_failed (os_errno : Z) (srv : option string) (prt : Z)
    (vol img tr : option string)
| Invalid_preallocation (mode : option string)
| Options_error (msg : string).

(** The library's answer to one call.  [o_ret = 0] is success; an [int]
    function returns [o_ret], a function that returns a pointer returns
    [NULL] exactly when [o_ret] is not 0.  [o_errno] is the value the call
    leaves in [errno], [None] when it leaves [errno] alone. *)
Record outcome := mkOutcome {
  o_ret : Z;
  o_errno : option Z
}.

Definition ok : outcome := {| o_ret := 0; o_errno := None |}.
Definition fails (e : Z) : outcome := {| o_ret := -1; o_errno := Some e |}.

(** [qiov->iov], with [qiov->niov] its length. *)
Record iovec := mkIovec { iov_base : Z; iov_len : Z }.
Definition QEMUIOVector := list iovec.

(** The asynchronous requests, as the library receives them; [Ev_async]
    below adds the opaque argument and the record it points at when the
    request is made. *)
Inductive aio_request :=
| Aio_preadv (iov : QEMUIOVector) (offset flags : Z)
| Aio_pwritev (iov : QEMUIOVector) (offset flags : Z)
| Aio_fsync
| Aio_discard (offset len : Z)
| Aio_zerofill (offset len : Z).

(** The calls into the library, with their arguments, in program order. *)
Inductive event :=
| Ev_new (vol : option string) (res : option handle)
| Ev_set_volfile_server (fs : handle) (tr host : option string) (prt : Z)
| Ev_set_logging (fs : handle) (logfile : string) (level : Z)
| Ev_init (fs : handle)
| Ev_fini (fs : handle)
| Ev_fini_null
| Ev_open (fs : handle) (path : option string) (flags : Z)
    (res : option handle)
| Ev_creat (fs : handle) (path : option string) (flags mode : Z)
    (res : option handle)
| Ev_ftruncate (f : handle) (length : Z)
| Ev_ftruncate_null (length : Z)
| Ev_zerofill (f : handle) (offset len : Z)
| Ev_close (f : handle)
| Ev_lseek (f : option handle) (offset whence : Z)
| Ev_fstat (f : option handle)
| Ev_async (f : option handle) (req : aio_request) (data : handle)
    (record : option GlusterAIOCB).

Record World := mkWorld {
  errno : Z;
  replies : nat -> outcome;        (* the library's answers still to come *)
  volumes : gset handle;           (* live volume handles *)
  files : gset handle;             (* live file handles *)
  err : option Error;              (* *errp *)
  trace : list event;
  heap : gmap handle GlusterAIOCB; (* records from g_slice_new *)
  bhs : gmap handle (handle * bool); (* bottom halves: opaque, scheduled *)
  uninit : handle -> GlusterAIOCB  (* what new memory holds, by address *)
}.

Definition with_errno (e : Z) (w : World) : World :=
  {| errno := e; replies := replies w; volumes := volumes w;
     files := files w; err := err w; trace := trace w; heap := heap w;
     bhs := bhs w;
     uninit := uninit w |}.
Definition with_replies (r : nat -> outcome) (w : World) : World :=
  {| errno := errno w; replies := r; volumes := volumes w;
     files := files w; err := err w; trace := trace w; heap := heap w;
     bhs := bhs w;
     uninit := uninit w |}.
Definition with_volumes (v : gset handle) (w : World) : World :=
  {| errno := errno w; replies := replies w; volumes := v;
     files := files w; err := err w; trace := trace w; heap := heap w;
     bhs := bhs w;
     uninit := uninit w |}.
Definition with_files (f : gset handle) (w : World) : World :=
  {| errno := errno w; replies := replies w; volumes := volumes w;
     files := f; err := err w; trace := trace w; heap := heap w;
     bhs := bhs w;
     uninit := uninit w |}.
Definition with_err (e : option Error) (w : World) : World :=
  {| errno := errno w; replies := replies w; volumes := volumes w;
     files := files w; err := e; trace := trace w; heap := heap w;
     bhs := bhs w;
     uninit := uninit w |}.
Definition with_trace (t : list event) (w : World) : World :=
  {| errno := errno w; replies := replies w; volumes := volumes w;
     files := files w; err := err w; trace := t; heap := heap w;
     bhs := bhs w;
     uninit := uninit w |}.
Definition with_heap (h : gmap handle GlusterAIOCB) (w : World) : World :=
  {| errno := errno w; replies := replies w; volumes := volumes w;
     files := files w; err := err w; trace := trace w; heap := h;
     bhs := bhs w;
     uninit := uninit w |}.
Definition with_bhs (b : gmap handle (handle * bool)) (w : World) : World :=
  {| errno := errno w; replies := replies w; volumes := volumes w;
     files := files w; err := err w; trace := trace w; heap := heap w;
     bhs := b;
     uninit := uninit w |}.

(** *** The state monad of the driver *)

Definition M (A : Type) : Type := World -> A * World.

Definition mreturn {A} (a : A) : M A := fun w => (a, w).
Definition mbind {A B} (m : M A) (k : A -> M B) : M B :=
  fun w => let '(a, w') := m w in k a w'.

Declare Scope drv_scope.
Delimit Scope drv_scope with drv.
Notation "x <- m ;; k" := (mbind m (fun x => k))
  (at level 100, m at next level, right associativity) : drv_scope.
Notation "m ;; k" := (mbind m (fun _ => k))
  (at level 100, right associativity) : drv_scope.
Local Open Scope drv_scope.

Definition get_errno : M Z := fun w => (errno w, w).
Definition set_errno (e : Z) : M unit := fun w => (tt, with_errno e w).
Definition log (ev : event) : M unit :=
  fun w => (tt, with_trace (trace w ++ [ev]) w).

(** [error_setg] and [error_setg_errno]: the message reaches [*errp];
    [errno] is left as it was. *)
Definition error_setg (e : Error) : M unit :=
  fun w => (tt, with_err (Some e) w).

(** *** The library *)

(** The next answer of the library, with its effect on [errno]. *)
Definition reply : M outcome := fun w =>
  let o := replies w O in
  (o, with_replies (fun i => replies w (S i))
        (with_errno (match o_errno o with Some e => e | None => errno w end)
           w)).

Definition glfs_new (vol : option string) : M (option handle) :=
  o <- reply ;;
  if o_ret o =? 0 then
    fun w =>
      let h := fresh (volumes w ∪ files w) in
      (Some h,
       with_trace (trace w ++ [Ev_new vol (Some h)])
         (with_volumes ({[h]} ∪ volumes w) w))
  else log (Ev_new vol None) ;; mreturn None.

Definition glfs_set_volfile_server (fs : handle) (tr host : option string)
    (prt : Z) : M Z :=
  o <- reply ;; log (Ev_set_volfile_server fs tr host prt) ;;
  mreturn (o_ret o).

Definition glfs_set_logging (fs : handle) (logfile : string) (level : Z)
  : M Z :=
  o <- reply ;; log (Ev_set_logging fs logfile level) ;; mreturn (o_ret o).

Definition glfs_init (fs : handle) : M Z :=
  o <- reply ;; log (Ev_init fs) ;; mreturn (o_ret o).

(** The volume handle is gone after [glfs_fini], and the file handle after
    [glfs_close], whatever the call returns. *)
Definition glfs_fini (fs : handle) : M Z :=
  o <- reply ;;
  (fun w => (tt, with_volumes (volumes w ∖ {[fs]}) w)) ;;
  log (Ev_fini fs) ;; mreturn (o_ret o).

(** [glfs_fini (NULL)] and [glfs_ftruncate (NULL, length)], as
    [qemu_gluster_close] and [qemu_gluster_truncate] call them for an
    instance without the handle. *)
Definition glfs_fini_null : M Z :=
  o <- reply ;; log Ev_fini_null ;; mreturn (o_ret o).

Definition glfs_ftruncate_null (length : Z) : M Z :=
  o <- reply ;; log (Ev_ftruncate_null (to_int64 length)) ;;
  mreturn (o_ret o).

Definition glfs_close (f : handle) : M Z :=
  o <- reply ;;
  (fun w => (tt, with_files (files w ∖ {[f]}) w)) ;;
  log (Ev_close f) ;; mreturn (o_ret o).

Definition glfs_open (fs : handle) (path : option string) (flags : Z)
  : M (option handle) :=
  o <- reply ;;
  if o_ret o =? 0 then
    fun w =>
      let h := fresh (volumes w ∪ files w) in
      (Some h,
       with_trace (trace w ++ [Ev_open fs path flags (Some h)])
         (with_files ({[h]} ∪ files w) w))
  else log (Ev_open fs path flags None) ;; mreturn None.

Definition glfs_creat (fs : handle) (path : option string) (flags mode : Z)
  : M (option handle) :=
  o <- reply ;;
  if o_ret o =? 0 then
    fun w =>
      let h := fresh (volumes w ∪ files w) in
      (Some h,
       with_trace (trace w ++ [Ev_creat fs path flags mode (Some h)])
         (with_files ({[h]} ∪ files w) w))
  else log (Ev_creat fs path flags mode None) ;; mreturn None.

(** [off_t length] *)
Definition glfs_ftruncate (f : handle) (length : Z) : M Z :=
  o <- reply ;; log (Ev_ftruncate f (to_int64 length)) ;; mreturn (o_ret o).

Definition glfs_zerofill (f : handle) (offset len : Z) : M Z :=
  o <- reply ;; log (Ev_zerofill f (to_int64 offset) (to_int64 len)) ;;
  mreturn (o_ret o).

(** ** Flags and option names from the headers (Linux values) *)

Definition O_RDONLY : Z := 0.
Definition O_WRONLY : Z := 1.
Definition O_RDWR : Z := 2.
Definition O_CREAT : Z := 64.
Definition O_TRUNC : Z := 512.
Definition O_DIRECT : Z := 16384.
Definition O_BINARY : Z := 0.
Definition S_IRUSR : Z := 256.
Definition S_IWUSR : Z := 128.
Definition BDRV_O_RDWR : Z := 2.
Definition BDRV_O_NOCACHE : Z := 32.
Definition BLOCK_OPT_SIZE : string := "size".
Definition BLOCK_OPT_PREALLOC : string := "preallocation".

(** Modelled from the spec: [QEMUOptionParameter] is declared in
    qemu-option.h; its value is a union read as a byte count ([value.n],
    64 bits, unsigned) for [size] and as a string ([value.s]) for
    [preallocation]. *)
Record QEMUOptionParameter := mkOption {
  opt_name : string;
  value_n : Z;
  value_s : option string
}.

Definition set_glfs (s : BDRVGlusterState) (v : option handle)
  : BDRVGlusterState := {| glfs := v; fd := fd s |}.
Definition set_fd (s : BDRVGlusterState) (v : option handle)
  : BDRVGlusterState := {| glfs := glfs s; fd := v |}.

Section Driver.

Variable uri_parse : option string -> option URI.
Variable query_params_parse : option string -> QueryParams.

(** Build-time switch for [glfs_zerofill]. *)
Variable CONFIG_GLUSTERFS_ZEROFILL : bool.

(** The option machinery: what [qemu_opts_absorb_qdict] reports in
    [local_err], and [qemu_opt_get] on the absorbed options. *)
Variable QDict : Type.
Variable qemu_opts_absorb_qdict : QDict -> option Error.
Variable qemu_opt_get : QDict -> string -> option string.

(** The [out:] label of [qemu_gluster_init]. *)
Definition qemu_gluster_init_out (glfs : option handle)
  : M (option handle) :=
  match glfs with
  | Some g =>
      old_errno <- get_errno ;;
      glfs_fini g ;;
      set_errno old_errno ;;
      mreturn None
  | None => mreturn None
  end.

(** [gconf] is filled through the pointer: the caller sees the result. *)
Definition qemu_gluster_init (gconf : GlusterConf)
    (filename : option string) : M (option handle * GlusterConf) :=
  let '(ret, gconf) :=
    qemu_gluster_parseuri uri_parse query_params_parse gconf filename in
  if ret <? 0 then
    error_setg Usage_error ;;
    set_errno (- ret) ;;
    r <- qemu_gluster_init_out None ;; mreturn (r, gconf)
  else
    glfs <- glfs_new (volname gconf) ;;
    match glfs with
    | None => r <- qemu_gluster_init_out None ;; mreturn (r, gconf)
    | Some g =>
        ret <- glfs_set_volfile_server g (transport gconf) (server gconf)
                 (port gconf) ;;
        if ret <? 0 then
          r <- qemu_gluster_init_out (Some g) ;; mreturn (r, gconf)
        else
          ret <- glfs_set_logging g "-" 4 ;;
          if ret <? 0 then
            r <- qemu_gluster_init_out (Some g) ;; mreturn (r, gconf)
          else
            ret <- glfs_init g ;;
            if negb (ret =? 0) then
              e <- get_errno ;;
              error_setg (Connection_failed e (server gconf) (port gconf)
                            (volname gconf) (image gconf)
                            (transport gconf)) ;;
              r <- qemu_gluster_init_out (Some g) ;; mreturn (r, gconf)
            else mreturn (Some g, gconf)
    end.

(** The [out:] label of [qemu_gluster_open]. *)
Definition qemu_gluster_open_out (s : BDRVGlusterState) (ret : Z)
  : M (Z * BDRVGlusterState) :=
  if ret =? 0 then mreturn (ret, s)
  else
    (match fd s with
     | Some f => glfs_close f ;; mreturn tt
     | None => mreturn tt
     end) ;;
    (match glfs s with
     | Some g => glfs_fini g ;; mreturn tt
     | None => mreturn tt
     end) ;;
    mreturn (ret, s).

(** [s] is [bs->opaque]; the instance after the call is returned with the
    status.  [qemu_opts_create], [qemu_opts_del] and
    [qemu_gluster_gconf_free] only allocate and free the call's own memory
    and are left out. *)
Definition qemu_gluster_open (s : BDRVGlusterState) (options : QDict)
    (bdrv_flags : Z) : M (Z * BDRVGlusterState) :=
  let open_flags := O_BINARY in
  let gconf := gconf_zero in
  match qemu_opts_absorb_qdict options with
  | Some local_err =>
      error_setg local_err ;;
      qemu_gluster_open_out s (- EINVAL)
  | None =>
      let filename := qemu_opt_get options "filename" in
      x <- qemu_gluster_init gconf filename ;;
      let '(g, gconf) := x in
      let s := set_glfs s g in
      match g with
      | None =>
          e <- get_errno ;;
          qemu_gluster_open_out s (- e)
      | Some g =>
          let open_flags :=
            if negb (Z.land bdrv_flags BDRV_O_RDWR =? 0)
            then Z.lor open_flags O_RDWR
            else Z.lor open_flags O_RDONLY in
          let open_flags :=
            if negb (Z.land bdrv_flags BDRV_O_NOCACHE =? 0)
            then Z.lor open_flags O_DIRECT
            else open_flags in
          f <- glfs_open g (image gconf) open_flags ;;
          let s := set_fd s f in
          match f with
          | None => e <- get_errno ;; qemu_gluster_open_out s (- e)
          | Some _ => qemu_gluster_open_out s 0
          end
      end
  end.

Definition gluster_supports_zerofill : bool := CONFIG_GLUSTERFS_ZEROFILL.

(** [int64_t offset], [int64_t size] *)
Definition qemu_gluster_zerofill (f : handle) (offset size : Z) : M Z :=
  if CONFIG_GLUSTERFS_ZEROFILL
  then glfs_zerofill f (to_int64 offset) (to_int64 size)
  else mreturn 0.

(** The [while] loop of [qemu_gluster_create] over the entries before
    the one without a name; [inl] is the exit through the error branch,
    with the rejected mode. *)
Fixpoint create_options_loop (options : list QEMUOptionParameter)
    (total_size prealloc : Z) : option string + Z * Z :=
  match options with
  | [] => inr (total_size, prealloc)
  | o :: options =>
      if streq (opt_name o) BLOCK_OPT_SIZE then
        create_options_loop options
          (to_int64 (to_uint64 (value_n o) / BDRV_SECTOR_SIZE)) prealloc
      else if streq (opt_name o) BLOCK_OPT_PREALLOC then
        match value_s o with
        | None => create_options_loop options total_size 0
        | Some m =>
            if streq m "off" then create_options_loop options total_size 0
            else if streq m "full" && gluster_supports_zerofill
            then create_options_loop options total_size 1
            else inl (value_s o)
        end
      else create_options_loop options total_size prealloc
  end.

(** The [out:] label of [qemu_gluster_create]. *)
Definition qemu_gluster_create_out (glfs : option handle) (ret : Z)
  : M Z :=
  match glfs with
  | Some g => glfs_fini g ;; mreturn ret
  | None => mreturn ret
  end.

(** [options] is the array up to the entry without a name, empty for a
    [NULL] pointer. *)
Definition qemu_gluster_create (filename : option string)
    (options : list QEMUOptionParameter) : M Z :=
  let ret := 0 in
  x <- qemu_gluster_init gconf_zero filename ;;
  let '(glfs, gconf) := x in
  match glfs with
  | None => qemu_gluster_create_out glfs (- EINVAL)
  | Some g =>
      match create_options_loop options 0 0 with
      | inl mode =>
          error_setg (Invalid_preallocation mode) ;;
          qemu_gluster_create_out glfs (- EINVAL)
      | inr (total_size, prealloc) =>
          let bytes := to_uint64 (to_uint64 total_size * BDRV_SECTOR_SIZE) in
          f <- glfs_creat g (image gconf)
                 (Z.lor (Z.lor (Z.lor O_WRONLY O_CREAT) O_TRUNC) O_BINARY)
                 (Z.lor S_IRUSR S_IWUSR) ;;
          match f with
          | None => e <- get_errno ;; qemu_gluster_create_out glfs (- e)
          | Some f =>
              t <- glfs_ftruncate f bytes ;;
              ret <- (if t =? 0 then
                        if negb (prealloc =? 0) then
                          z <- qemu_gluster_zerofill f 0 bytes ;;
                          if negb (z =? 0)
                          then e <- get_errno ;; mreturn (- e)
                          else mreturn ret
                        else mreturn ret
                      else e <- get_errno ;; mreturn (- e)) ;;
              c <- glfs_close f ;;
              ret <- (if negb (c =? 0)
                      then e <- get_errno ;; mreturn (- e)
                      else mreturn ret) ;;
              qemu_gluster_create_out glfs ret
          end
      end
  end.

End Driver.

(** ** The AIO bridge *)

(** A coroutine function either returns or stops at
    [qemu_coroutine_yield ()], with the code that runs when the coroutine
    is entered again. *)
#[local] Unset Elimination Schemes.
Inductive Co (R : Type) : Type :=
| Co_return (r : R)
| Co_yield (k : World -> Co R * World).
#[local] Set Elimination Schemes.
Arguments Co_return {R} r.
Arguments Co_yield {R} k.

(** [x * BDRV_SECTOR_SIZE] in [unsigned long long], the type of the
    constant. *)
Definition sectors_to_bytes (x : Z) : Z :=
  to_uint64 (to_uint64 x * BDRV_SECTOR_SIZE).

(** *** Records on the heap *)

(** [g_slice_new (GlusterAIOCB)]: a fresh address; the memory is not
    cleared, the record holds whatever was there. *)
Definition g_slice_new : M handle := fun w =>
  let a := fresh (dom (heap w)) in
  (a, with_heap (<[a := uninit w a]> (heap w)) w).

Definition g_slice_free (a : handle) : M unit :=
  fun w => (tt, with_heap (delete a (heap w)) w).

(** Field reads and writes through the pointer; reading through a pointer
    to a freed record has no defined result, the model reads 0. *)
Definition acb_store (a : handle) (f : GlusterAIOCB -> GlusterAIOCB)
  : M unit :=
  fun w => (tt, with_heap (alter f a (heap w)) w).

Definition store_size (v : Z) (r : GlusterAIOCB) : GlusterAIOCB :=
  {| acb_size := v; acb_ret := acb_ret r; acb_bh := acb_bh r;
     acb_coroutine := acb_coroutine r |}.
Definition store_ret (v : Z) (r : GlusterAIOCB) : GlusterAIOCB :=
  {| acb_size := acb_size r; acb_ret := v; acb_bh := acb_bh r;
     acb_coroutine := acb_coroutine r |}.
Definition store_bh (v : option handle) (r : GlusterAIOCB) : GlusterAIOCB :=
  {| acb_size := acb_size r; acb_ret := acb_ret r; acb_bh := v;
     acb_coroutine := acb_coroutine r |}.
Definition store_coroutine (v : handle) (r : GlusterAIOCB) : GlusterAIOCB :=
  {| acb_size := acb_size r; acb_ret := acb_ret r; acb_bh := acb_bh r;
     acb_coroutine := v |}.

Definition load_size (a : handle) : M Z := fun w =>
  (match heap w !! a with Some r => acb_size r | None => 0 end, w).
Definition load_ret (a : handle) : M Z := fun w =>
  (match heap w !! a with Some r => acb_ret r | None => 0 end, w).
Definition load_bh (a : handle) : M (option handle) := fun w =>
  (match heap w !! a with Some r => acb_bh r | None => None end, w).
Definition load_coroutine (a : handle) : M (option handle) := fun w =>
  (acb_coroutine <$> heap w !! a, w).

(** *** Bottom halves *)

Definition qemu_bh_new (opaque : handle) : M handle := fun w =>
  let b := fresh (dom (bhs w)) in
  (b, with_bhs (<[b := (opaque, false)]> (bhs w)) w).

Definition qemu_bh_schedule (b : handle) : M unit := fun w =>
  (tt, with_bhs (alter (fun x => (fst x, true)) b (bhs w)) w).

Definition qemu_bh_delete (b : option handle) : M unit := fun w =>
  (tt, match b with
       | Some b => with_bhs (delete b (bhs w)) w
       | None => w
       end).

(** *** Asynchronous requests *)

Definition glfs_async (f : option handle) (req : aio_request)
    (data : handle) : M Z :=
  o <- reply ;;
  (fun w => (tt, with_trace
                   (trace w ++ [Ev_async f req data (heap w !! data)]) w)) ;;
  mreturn (o_ret o).

Definition glfs_preadv_async f (iov : QEMUIOVector) (offset flags : Z) data :=
  glfs_async f (Aio_preadv iov (to_int64 offset) flags) data.
Definition glfs_pwritev_async f (iov : QEMUIOVector) (offset flags : Z) data :=
  glfs_async f (Aio_pwritev iov (to_int64 offset) flags) data.
Definition glfs_fsync_async f data := glfs_async f Aio_fsync data.
Definition glfs_discard_async f (offset len : Z) data :=
  glfs_async f (Aio_discard (to_int64 offset) (to_uint64 len)) data.
Definition glfs_zerofill_async f (offset len : Z) data :=
  glfs_async f (Aio_zerofill (to_int64 offset) (to_int64 len)) data.

(** *** The completion path *)

(** [qemu_gluster_complete_aio], over the scheduler's
    [qemu_coroutine_enter]. *)
Definition qemu_gluster_complete_aio {R}
    (qemu_coroutine_enter : option handle -> M R) (opaque : handle) : M R :=
  b <- load_bh opaque ;;
  qemu_bh_delete b ;;
  acb_store opaque (store_bh None) ;;
  co <- load_coroutine opaque ;;
  qemu_coroutine_enter co.

(** [ssize_t ret]; the assignment to [acb->ret] converts to [int]. *)
Definition gluster_finish_aiocb (f : option handle) (ret : Z) (arg : handle)
  : M unit :=
  size <- load_size arg ;;
  (if (ret =? 0) || (ret =? size) then
     acb_store arg (store_ret 0) (* Success *)
   else if ret <? 0 then
     acb_store arg (store_ret (to_int ret)) (* Read/Write failed *)
   else
     acb_store arg (store_ret (- EIO)) (* Partial read/write - fail it *)) ;;
  b <- qemu_bh_new arg ;;
  acb_store arg (store_bh (Some b)) ;;
  qemu_bh_schedule b.

(** *** The coroutine functions *)

(** The code the five functions share after [qemu_coroutine_yield ()]:
    [ret = acb->ret; out: g_slice_free (GlusterAIOCB, acb); return ret;] *)
Definition after_yield (acb : handle) : M (Co Z) :=
  ret <- load_ret acb ;;
  g_slice_free acb ;;
  mreturn (Co_return ret).

(** and after a failed submission:
    [ret = -errno; goto out;] *)
Definition submit_failed (acb : handle) : M (Co Z) :=
  e <- get_errno ;;
  g_slice_free acb ;;
  mreturn (Co_return (- e)).

Section Coroutines.

(** [qemu_coroutine_self ()] *)
Variable self : handle.

(** [s] is [bs->opaque]. *)
Variable s : BDRVGlusterState.

Definition qemu_gluster_co_write_zeroes (sector_num nb_sectors : Z)
  : M (Co Z) :=
  acb <- g_slice_new ;;
  let size := to_int64 (sectors_to_bytes nb_sectors) in
  let offset := to_int64 (sectors_to_bytes sector_num) in
  acb_store acb (store_size size) ;;
  acb_store acb (store_ret 0) ;;
  acb_store acb (store_coroutine self) ;;
  ret <- glfs_zerofill_async (fd s) offset size acb ;;
  if ret <? 0 then submit_failed acb
  else mreturn (Co_yield (after_yield acb)).

Definition qemu_gluster_co_rw (sector_num nb_sectors : Z)
    (qiov : QEMUIOVector) (write : Z) : M (Co Z) :=
  acb <- g_slice_new ;;
  let size := sectors_to_bytes nb_sectors in
  let offset := to_int64 (sectors_to_bytes sector_num) in
  acb_store acb (store_size (to_int64 size)) ;;
  acb_store acb (store_ret 0) ;;
  acb_store acb (store_coroutine self) ;;
  ret <- (if negb (write =? 0)
          then glfs_pwritev_async (fd s) qiov offset 0 acb
          else glfs_preadv_async (fd s) qiov offset 0 acb) ;;
  if ret <? 0 then submit_failed acb
  else mreturn (Co_yield (after_yield acb)).

Definition qemu_gluster_co_readv (sector_num nb_sectors : Z)
    (qiov : QEMUIOVector) : M (Co Z) :=
  qemu_gluster_co_rw sector_num nb_sectors qiov 0.

Definition qemu_gluster_co_writev (sector_num nb_sectors : Z)
    (qiov : QEMUIOVector) : M (Co Z) :=
  qemu_gluster_co_rw sector_num nb_sectors qiov 1.

Definition qemu_gluster_co_flush_to_disk : M (Co Z) :=
  acb <- g_slice_new ;;
  acb_store acb (store_size 0) ;;
  acb_store acb (store_ret 0) ;;
  acb_store acb (store_coroutine self) ;;
  ret <- glfs_fsync_async (fd s) acb ;;
  if ret <? 0 then submit_failed acb
  else mreturn (Co_yield (after_yield acb)).

Definition qemu_gluster_co_discard (sector_num nb_sectors : Z)
  : M (Co Z) :=
  acb <- g_slice_new ;;
  let size := sectors_to_bytes nb_sectors in
  let offset := to_int64 (sectors_to_bytes sector_num) in
  acb_store acb (store_size 0) ;;
  acb_store acb (store_ret 0) ;;
  acb_store acb (store_coroutine self) ;;
  ret <- glfs_discard_async (fd s) offset size acb ;;
  if ret <? 0 then submit_failed acb
  else mreturn (Co_yield (after_yield acb)).

(** The scheduler: entering the coroutine that waits at its yield runs
    the code after the yield; [None] when another coroutine is entered or
    this one yields again. *)
Definition qemu_coroutine_enter (k : M (Co Z)) (co : option handle)
  : M (option Z) :=
  if decide (co = Some self) then
    c <- k ;;
    mreturn (match c with Co_return r => Some r | Co_yield _ => None end)
  else mreturn None.

(** One completion: the library's thread calls [gluster_finish_aiocb]
    with the byte count [delivered], then the main loop runs the bottom
    half on [data], which enters the coroutine waiting with [k]. *)
Definition complete_request (k : M (Co Z)) (f : option handle)
    (delivered : Z) (data : handle) : M (option Z) :=
  gluster_finish_aiocb f delivered data ;;
  qemu_gluster_complete_aio (qemu_coroutine_enter k) data.

End Coroutines.

(** The five operations of the block layer's table that go through the
    bridge. *)
Inductive io_op :=
| Op_readv (sector_num nb_sectors : Z) (qiov : QEMUIOVector)
| Op_writev (sector_num nb_sectors : Z) (qiov : QEMUIOVector)
| Op_flush_to_disk
| Op_discard (sector_num nb_sectors : Z)
| Op_write_zeroes (sector_num nb_sectors : Z).

Definition run_op (self : handle) (s : BDRVGlusterState) (op : io_op)
  : M (Co Z) :=
  match op with
  | Op_readv sn nb q => qemu_gluster_co_readv self s sn nb q
  | Op_writev sn nb q => qemu_gluster_co_writev self s sn nb q
  | Op_flush_to_disk => qemu_gluster_co_flush_to_disk self s
  | Op_discard sn nb => qemu_gluster_co_discard self s sn nb
  | Op_write_zeroes sn nb => qemu_gluster_co_write_zeroes self s sn nb
  end.

(** ** Statement-level definitions for the AIO bridge *)

(** The byte count an operation moves, as far as the record is concerned:
    the sector count times 512 for read, write and zero-fill, 0 for flush
    and discard. *)
Definition expected_size (op : io_op) : Z :=
  match op with
  | Op_readv _ nb _ | Op_writev _ nb _ | Op_write_zeroes _ nb =>
      nb * BDRV_SECTOR_SIZE
  | Op_flush_to_disk | Op_discard _ _ => 0
  end.

(** [nb_sectors] is an [int]. *)
Definition nb_sectors_of (op : io_op) : Z :=
  match op with
  | Op_readv _ nb _ | Op_writev _ nb _ | Op_write_zeroes _ nb
  | Op_discard _ nb => nb
  | Op_flush_to_disk => 0
  end.

(** The request the library receives for an operation. *)
Definition request_of (op : io_op) : aio_request :=
  match op with
  | Op_readv sn _ q => Aio_preadv q (to_int64 (sectors_to_bytes sn)) 0
  | Op_writev sn _ q => Aio_pwritev q (to_int64 (sectors_to_bytes sn)) 0
  | Op_flush_to_disk => Aio_fsync
  | Op_discard sn nb =>
      Aio_discard (to_int64 (sectors_to_bytes sn)) (sectors_to_bytes nb)
  | Op_write_zeroes sn nb =>
      Aio_zerofill (to_int64 (sectors_to_bytes sn))
        (to_int64 (sectors_to_bytes nb))
  end.

(** An operation from its call to its return: when it yields, the library
    completes the request it was given last with [delivered]. *)
Definition run_to_completion (self : handle) (s : BDRVGlusterState)
    (op : io_op) (delivered : Z) : M (option Z) :=
  c <- run_op self s op ;;
  match c with
  | Co_return r => mreturn (Some r)
  | Co_yield k =>
      fun w =>
        match last (trace w) with
        | Some (Ev_async f _ data _) =>
            complete_request self k f delivered data w
        | _ => (None, w)
        end
  end.

(** ** Sample worlds *)

(** A library that answers from a script and succeeds once the script is
    used up. *)
Definition script (l : list outcome) : nat -> outcome :=
  fun i => nth i l ok.

(** What the allocator's memory holds in the sample worlds: the fields of
    a record used before. *)
Definition stale_record : GlusterAIOCB :=
  {| acb_size := 4096; acb_ret := - EIO; acb_bh := Some 3%positive;
     acb_coroutine := 9%positive |}.

Definition world0 (rs : nat -> outcome) : World :=
  {| errno := 0; replies := rs; volumes := ∅; files := ∅; err := None;
     trace := []; heap := ∅; bhs := ∅; uninit := fun _ => stale_record |}.

(** A write of 65536 bytes in flight: its record at address 1, owned by
    coroutine 7. *)
Definition write_in_flight : World :=
  with_heap {[ 1%positive := {| acb_size := 65536; acb_ret := 0;
                                acb_bh := None;
                                acb_coroutine := 7%positive |} ]}
    (world0 (script [])).

Definition is_flush_or_discard (op : io_op) : Prop :=
  match op with
  | Op_flush_to_disk | Op_discard _ _ => True
  | _ => False
  end.

(** ** Statement-level definitions for the URI rules *)

Fixpoint slashes (k : nat) : string :=
  match k with
  | O => EmptyString
  | S k => String "/" (slashes k)
  end.

Fixpoint slash_free (s : string) : bool :=
  match s with
  | EmptyString => true
  | String c s' => negb (Ascii.eqb c "/") && slash_free s'
  end.

Definition no_leading_slash (s : string) : bool :=
  match s with
  | EmptyString => true
  | String c _ => negb (Ascii.eqb c "/")
  end.

(** The split of a path after its leading slashes: [vol] is the longest
    run without a slash, [m] counts the slashes after it and [img] is the
    rest. *)
Definition path_canonical (vol : string) (m : nat) (img : string) : Prop :=
  slash_free vol = true /\ no_leading_slash img = true /\
  (m = O -> img = EmptyString) /\ (vol = EmptyString -> m = O).

Definition non_unix_scheme (sch : option string) : Prop :=
  sch = Some "gluster"%string \/ sch = Some "gluster+tcp"%string \/
  sch = Some "gluster+rdma"%string.

Definition transport_of_scheme (sch : option string) : option string :=
  if decide (sch = Some "gluster+rdma"%string)
  then Some "rdma"%string else Some "tcp"%string.

(** The structure util/uri.c builds for two of the URIs in the comment
    above [qemu_gluster_parseuri], and parsers that answer with them. *)
Definition unix_example_uri : URI :=
  {| uri_scheme := Some "gluster+unix"%string; uri_server := None;
     uri_port := 0; uri_path := Some "/testvol/dir/a.img"%string;
     uri_query := Some "socket=/tmp/glusterd.socket"%string |}.

Definition unix_example_query : QueryParams :=
  [{| qp_name := "socket"; qp_value := Some "/tmp/glusterd.socket"%string |}].

Definition tcp_example_uri : URI :=
  {| uri_scheme := Some "gluster+tcp"%string;
     uri_server := Some "1.2.3.4"%string;
     uri_port := 24007; uri_path := Some "/testvol/dir/a.img"%string;
     uri_query := None |}.

Definition parse_as (u : URI) : option string -> option URI :=
  fun _ => Some u.
Definition query_as (q : QueryParams) : option string -> QueryParams :=
  fun _ => q.


(** ** Statement-level definitions for sessions *)

(** [errno] after the library has answered [n] calls. *)
Fixpoint errno_after (n : nat) (w : World) : Z :=
  match n with
  | O => errno w
  | S n =>
      match o_errno (replies w n) with
      | Some e => e
      | None => errno_after n w
      end
  end.

(** The library's answers from the [n]-th on. *)
Definition later_replies (n : nat) (w : World) : nat -> outcome :=
  fun i => replies w (n + i)%nat.

(** The library keeps the convention of [errno]: a call that fails leaves
    a positive error number. *)
Definition errno_convention (w : World) : Prop :=
  forall i, o_ret (replies w i) <> 0 ->
            exists e, o_errno (replies w i) = Some e /\ 0 < e.

(** The steps of [qemu_gluster_init], and the one that fails first. *)
Inductive init_step :=
| Step_parseuri
| Step_new
| Step_set_volfile_server
| Step_set_logging
| Step_init.

Section InitSteps.

Variable uri_parse : option string -> option URI.
Variable query_params_parse : option string -> QueryParams.

Definition init_failure (gconf : GlusterConf) (filename : option string)
    (w : World) : option init_step :=
  if fst (qemu_gluster_parseuri uri_parse query_params_parse gconf
            filename) <? 0
  then Some Step_parseuri
  else if negb (o_ret (replies w 0%nat) =? 0) then Some Step_new
  else if o_ret (replies w 1%nat) <? 0 then Some Step_set_volfile_server
  else if o_ret (replies w 2%nat) <? 0 then Some Step_set_logging
  else if negb (o_ret (replies w 3%nat) =? 0) then Some Step_init
  else None.

End InitSteps.

(** Library calls made up to and including the failing step. *)
Definition calls_until (st : init_step) : nat :=
  match st with
  | Step_parseuri => 0
  | Step_new => 1
  | Step_set_volfile_server => 2
  | Step_set_logging => 3
  | Step_init => 4
  end.

(** A volume handle exists when the step fails. *)
Definition has_volume (st : init_step) : bool :=
  match st with
  | Step_parseuri | Step_new => false
  | _ => true
  end.

(** The events of a run: what the trace gained. *)
Definition new_events (w w' : World) : list event :=
  drop (List.length (trace w)) (trace w').

(** The library calls of a bootstrap that fails at step [st], with [h] the
    volume handle when one was made: the last call finalizes it. *)
Definition init_failure_events (st : init_step) (gc : GlusterConf)
    (h : handle) : list event :=
  match st with
  | Step_parseuri => []
  | Step_new => [Ev_new (volname gc) None]
  | Step_set_volfile_server =>
      [Ev_new (volname gc) (Some h);
       Ev_set_volfile_server h (transport gc) (server gc) (port gc);
       Ev_fini h]
  | Step_set_logging =>
      [Ev_new (volname gc) (Some h);
       Ev_set_volfile_server h (transport gc) (server gc) (port gc);
       Ev_set_logging h "-" 4; Ev_fini h]
  | Step_init =>
      [Ev_new (volname gc) (Some h);
       Ev_set_volfile_server h (transport gc) (server gc) (port gc);
       Ev_set_logging h "-" 4; Ev_init h; Ev_fini h]
  end.

(** The file part of [qemu_gluster_create], after a bootstrap that took
    the library's answers 0 to 3 and a parameter scan that gave [prealloc]:
    answer 4 is for [glfs_creat], 5 for [glfs_ftruncate], 6 for
    [glfs_zerofill] when it is called, the next for [glfs_close] and the
    last for [glfs_fini]. *)
Section CreateSteps.

Variable zerofill_configured : bool.
Variable prealloc : Z.
Variable w : World.

Definition creat_failed : bool := negb (o_ret (replies w 4%nat) =? 0).
Definition ftruncate_failed : bool := negb (o_ret (replies w 5%nat) =? 0).
Definition zerofill_called : bool :=
  negb ftruncate_failed && negb (prealloc =? 0) && zerofill_configured.
Definition zerofill_failed : bool :=
  zerofill_called && negb (o_ret (replies w 6%nat) =? 0).
Definition close_index : nat := if zerofill_called then 7%nat else 6%nat.
Definition close_failed : bool :=
  negb (o_ret (replies w close_index) =? 0).

(** What [qemu_gluster_create] returns: the close's error number when
    the close fails, else the one of the truncation or of the zero-fill
    when either fails, else 0. *)
Definition create_file_status : Z :=
  if creat_failed then - errno_after 5 w
  else if close_failed then - errno_after (S close_index) w
  else if ftruncate_failed then - errno_after 6 w
  else if zerofill_failed then - errno_after 7 w
  else 0.

Definition create_file_events (g : handle) (f : handle)
    (path : option string) (bytes : Z) : list event :=
  if creat_failed then
    [Ev_creat g path
       (Z.lor (Z.lor (Z.lor O_WRONLY O_CREAT) O_TRUNC) O_BINARY)
       (Z.lor S_IRUSR S_IWUSR) None;
     Ev_fini g]
  else
    [Ev_creat g path
       (Z.lor (Z.lor (Z.lor O_WRONLY O_CREAT) O_TRUNC) O_BINARY)
       (Z.lor S_IRUSR S_IWUSR) (Some f);
     Ev_ftruncate f (to_int64 bytes)]
    ++ (if zerofill_called then [Ev_zerofill f 0 (to_int64 bytes)] else [])
    ++ [Ev_close f; Ev_fini g].

End CreateSteps.

Definition is_zerofill (ev : event) : bool :=
  match ev with Ev_zerofill _ _ _ => true | _ => false end.

(** ** Create parameters *)

Definition size_option (n : Z) : QEMUOptionParameter :=
  {| opt_name := BLOCK_OPT_SIZE; value_n := n; value_s := None |}.

Definition prealloc_option (m : option string) : QEMUOptionParameter :=
  {| opt_name := BLOCK_OPT_PREALLOC; value_n := 0; value_s := m |}.

(** A preallocation entry the driver cannot honour: [full] without
    [glfs_zerofill], or a mode that is neither [off] nor [full]. *)
Definition prealloc_rejected (zerofill_configured : bool)
    (o : QEMUOptionParameter) : Prop :=
  opt_name o = BLOCK_OPT_PREALLOC /\
  ((value_s o = Some "full"%string /\ zerofill_configured = false) \/
   exists m, value_s o = Some m /\ m <> "off"%string /\ m <> "full"%string).

(** Preallocation absent or [off] (an entry without a value counts as
    [off]). *)
Definition prealloc_off (options : list QEMUOptionParameter) : Prop :=
  forall o, In o options -> opt_name o = BLOCK_OPT_PREALLOC ->
            value_s o = None \/ value_s o = Some "off"%string.

(** A filename for the samples, with the parsers' answer for it. *)
Definition tcp_example_filename : option string :=
  Some "gluster+tcp://1.2.3.4:24007/testvol/dir/a.img"%string.

Definition ENOENT : Z := 2.
Definition ENOMEM : Z := 12.
Definition ENOSPC : Z := 28.

(** ** Sample runs *)

(** The library answers as scripted to a driver whose parsers return the
    TCP example. *)
Definition refused_connection : World :=
  world0 (script [ok; ok; ok; fails 111;
                  {| o_ret := 0; o_errno := Some 9 |}]).

Definition missing_image : World :=
  world0 (script [ok; ok; ok; ok; fails ENOENT]).

Definition disk_full_then_close_fails : World :=
  world0 (script [ok; ok; ok; ok; ok; fails ENOSPC; fails EIO]).

Definition out_of_memory : World := world0 (script [fails ENOMEM]).

Definition example_create (zerofill_configured : bool)
    (options : list QEMUOptionParameter) : M Z :=
  qemu_gluster_create (parse_as tcp_example_uri) (query_as [])
    zerofill_configured tcp_example_filename options.

Definition example_open : M (Z * BDRVGlusterState) :=
  qemu_gluster_open (parse_as tcp_example_uri) (query_as []) unit
    (fun _ => None) (fun _ _ => tcp_example_filename)
    {| glfs := None; fd := None |} tt BDRV_O_RDWR.

(** ** The rest of the driver's table *)

Definition SEEK_END : Z := 2.

(** [off_t glfs_lseek (fd, offset, whence)]: the answer is the resulting
    offset. *)
Definition glfs_lseek (f : option handle) (offset whence : Z) : M Z :=
  o <- reply ;; log (Ev_lseek f (to_int64 offset) whence) ;;
  mreturn (o_ret o).

(** The kinds of create parameters ([OPT_SIZE], [OPT_STRING]). *)
Inductive option_type := OPT_SIZE | OPT_STRING.

Record create_option := mkCreateOption {
  co_name : string;
  co_type : option_type;
  co_help : string
}.

(** [qemu_gluster_create_options], up to the entry without a name. *)
Definition qemu_gluster_create_options : list create_option :=
  [ {| co_name := BLOCK_OPT_SIZE; co_type := OPT_SIZE;
       co_help := "Virtual disk size" |};
    {| co_name := BLOCK_OPT_PREALLOC; co_type := OPT_STRING;
       co_help := "Preallocation mode (allowed values: off, full)" |} ].

Section Table.

Variable uri_parse : option string -> option URI.
Variable query_params_parse : option string -> QueryParams.
Variable CONFIG_GLUSTERFS_ZEROFILL : bool.
Variable CONFIG_GLUSTERFS_DISCARD : bool.
Variable QDict : Type.
Variable qemu_opts_absorb_qdict : QDict -> option Error.
Variable qemu_opt_get : QDict -> string -> option string.

(** [st.st_blocks] as [glfs_fstat] fills it in for a file. *)
Variable st_blocks : option handle -> Z.

Definition glfs_fstat (f : option handle) : M (Z * Z) :=
  o <- reply ;; log (Ev_fstat f) ;; mreturn (o_ret o, st_blocks f).

Definition qemu_gluster_truncate (s : BDRVGlusterState) (offset : Z) : M Z :=
  ret <- (match fd s with
          | Some f => glfs_ftruncate f offset
          | None => glfs_ftruncate_null offset
          end) ;;
  if ret <? 0 then e <- get_errno ;; mreturn (- e)
  else mreturn 0.

Definition qemu_gluster_getlength (s : BDRVGlusterState) : M Z :=
  ret <- glfs_lseek (fd s) 0 SEEK_END ;;
  if ret <? 0 then e <- get_errno ;; mreturn (- e)
  else mreturn ret.

(** [st.st_blocks * 512] is computed in 64 bits. *)
Definition qemu_gluster_allocated_file_size (s : BDRVGlusterState) : M Z :=
  x <- glfs_fstat (fd s) ;;
  let '(ret, blocks) := x in
  if ret <? 0 then e <- get_errno ;; mreturn (- e)
  else mreturn (to_int64 (blocks * 512)).

(** [s->glfs] is handed to [glfs_fini] as it is, and kept in the
    instance. *)
Definition qemu_gluster_close (s : BDRVGlusterState) : M BDRVGlusterState :=
  s <- (match fd s with
        | Some f => glfs_close f ;; mreturn (set_fd s None)
        | None => mreturn s
        end) ;;
  (match glfs s with
   | Some g => glfs_fini g
   | None => glfs_fini_null
   end) ;;
  mreturn s.

Definition qemu_gluster_has_zero_init (s : BDRVGlusterState) : Z :=
  (* GlusterFS volume could be backed by a block device *)
  0.

(** The fields of [BlockDriver] the file sets; the two conditional
    entries are [None] when they are compiled out.  The coroutine
    functions take the running coroutine first. *)
Record BlockDriver := mkBlockDriver {
  format_name : string;
  protocol_name : string;
  instance_size : Z;
  bdrv_needs_filename : bool;
  bdrv_file_open : BDRVGlusterState -> QDict -> Z -> M (Z * BDRVGlusterState);
  bdrv_close : BDRVGlusterState -> M BDRVGlusterState;
  bdrv_create : option string -> list QEMUOptionParameter -> M Z;
  bdrv_getlength : BDRVGlusterState -> M Z;
  bdrv_get_allocated_file_size : BDRVGlusterState -> M Z;
  bdrv_truncate : BDRVGlusterState -> Z -> M Z;
  bdrv_co_readv :
    handle -> BDRVGlusterState -> Z -> Z -> QEMUIOVector -> M (Co Z);
  bdrv_co_writev :
    handle -> BDRVGlusterState -> Z -> Z -> QEMUIOVector -> M (Co Z);
  bdrv_co_flush_to_disk : handle -> BDRVGlusterState -> M (Co Z);
  bdrv_has_zero_init : BDRVGlusterState -> Z;
  bdrv_co_discard :
    option (handle -> BDRVGlusterState -> Z -> Z -> M (Co Z));
  bdrv_co_write_zeroes :
    option (handle -> BDRVGlusterState -> Z -> Z -> M (Co Z));
  create_options : list create_option
}.

(** [sizeof (BDRVGlusterState)]: two pointers. *)
Definition sizeof_BDRVGlusterState : Z := 16.

(** The initializer the four drivers have in common, but for the
    protocol name. *)
Definition gluster_driver (protocol : string) : BlockDriver :=
  {| format_name := "gluster";
     protocol_name := protocol;
     instance_size := sizeof_BDRVGlusterState;
     bdrv_needs_filename := true;
     bdrv_file_open :=
       qemu_gluster_open uri_parse query_params_parse QDict
         qemu_opts_absorb_qdict qemu_opt_get;
     bdrv_close := qemu_gluster_close;
     bdrv_create :=
       qemu_gluster_create uri_parse query_params_parse
         CONFIG_GLUSTERFS_ZEROFILL;
     bdrv_getlength := qemu_gluster_getlength;
     bdrv_get_allocated_file_size := qemu_gluster_allocated_file_size;
     bdrv_truncate := qemu_gluster_truncate;
     bdrv_co_readv := qemu_gluster_co_readv;
     bdrv_co_writev := qemu_gluster_co_writev;
     bdrv_co_flush_to_disk := qemu_gluster_co_flush_to_disk;
     bdrv_has_zero_init := qemu_gluster_has_zero_init;
     bdrv_co_discard :=
       if CONFIG_GLUSTERFS_DISCARD then Some qemu_gluster_co_discard
       else None;
     bdrv_co_write_zeroes :=
       if CONFIG_GLUSTERFS_ZEROFILL then Some qemu_gluster_co_write_zeroes
       else None;
     create_options := qemu_gluster_create_options |}.

Definition bdrv_gluster : BlockDriver := gluster_driver "gluster".
Definition bdrv_gluster_tcp : BlockDriver := gluster_driver "gluster+tcp".
Definition bdrv_gluster_unix : BlockDriver := gluster_driver "gluster+unix".
Definition bdrv_gluster_rdma : BlockDriver := gluster_driver "gluster+rdma".

(** [bdrv_register] of the block layer puts the driver at the head of its
    list. *)
Definition bdrv_register (bdrv : BlockDriver) (drivers : list BlockDriver)
  : list BlockDriver := bdrv :: drivers.

Definition bdrv_gluster_init (drivers : list BlockDriver)
  : list BlockDriver :=
  bdrv_register bdrv_gluster
    (bdrv_register bdrv_gluster_tcp
       (bdrv_register bdrv_gluster_unix
          (bdrv_register bdrv_gluster_rdma drivers))).

End Table.

(** ** Statement-level definitions for the further properties *)

(** The transport and the UNIX flag [qemu_gluster_parseuri] derives from a
    scheme, [None] for a scheme it does not know. *)
Definition known_transport (sch : option string) : option (string * bool) :=
  match sch with
  | None => Some ("tcp"%string, false)
  | Some s =>
      if String.eqb s "gluster" then Some ("tcp"%string, false)
      else if String.eqb s "gluster+tcp" then Some ("tcp"%string, false)
      else if String.eqb s "gluster+unix" then Some ("unix"%string, true)
      else if String.eqb s "gluster+rdma" then Some ("rdma"%string, false)
      else None
  end.

(** The three spellings of the TCP scheme: none, [gluster] and
    [gluster+tcp]. *)
Definition tcp_spelling (sch : option string) : Prop :=
  sch = None \/ sch = Some "gluster"%string \/
  sch = Some "gluster+tcp"%string.

(** The path with one slash before each part. *)
Definition canonical_path (vol img : string) : string :=
  ("/" ++ vol ++ "/" ++ img)%string.

Definition with_scheme (sch : option string) (u : URI) : URI :=
  {| uri_scheme := sch; uri_server := uri_server u; uri_port := uri_port u;
     uri_path := uri_path u; uri_query := uri_query u |}.

(** The flags [qemu_gluster_open] asks of [glfs_open], read off the bits
    of the block layer's flags: bit 1 is [BDRV_O_RDWR], bit 5 is
    [BDRV_O_NOCACHE]. *)
Definition requested_open_flags (bdrv_flags : Z) : Z :=
  Z.lor (if Z.testbit bdrv_flags 1 then O_RDWR else O_RDONLY)
        (if Z.testbit bdrv_flags 5 then O_DIRECT else 0).

(** The four library calls of a bootstrap that goes through. *)
Definition init_events (gc : GlusterConf) (h : handle) : list event :=
  [Ev_new (volname gc) (Some h);
   Ev_set_volfile_server h (transport gc) (server gc) (port gc);
   Ev_set_logging h "-" 4; Ev_init h].

(** The host the library is told for a URI that is not of the UNIX
    scheme. *)
Definition host_or_localhost (uri : URI) : option string :=
  Some (match uri_server uri with
        | Some host => host
        | None => "localhost"%string
        end).

(** [glfs_open] fails and leaves [errno] at 0. *)
Definition open_fails_silently : World :=
  world0 (script [ok; ok; ok; ok; {| o_ret := -1; o_errno := None |}]).


(** ** Statement-level definitions for completions and requests *)

(** The value the callback stores for the byte count [b] of a request
    that expects [size] bytes. *)
Definition classified (b size : Z) : Z :=
  if (b =? 0) || (b =? size) then 0
  else if b <? 0 then to_int b
  else - EIO.

(** [sector_num] is an [int64_t]. *)
Definition sector_num_of (op : io_op) : Z :=
  match op with
  | Op_readv sn _ _ | Op_writev sn _ _ | Op_discard sn _
  | Op_write_zeroes sn _ => sn
  | Op_flush_to_disk => 0
  end.

(** The request of an operation with offset and length in bytes, as
    integers. *)
Definition byte_request (op : io_op) : aio_request :=
  match op with
  | Op_readv sn _ q => Aio_preadv q (sn * 512) 0
  | Op_writev sn _ q => Aio_pwritev q (sn * 512) 0
  | Op_flush_to_disk => Aio_fsync
  | Op_discard sn nb => Aio_discard (sn * 512) (nb * 512)
  | Op_write_zeroes sn nb => Aio_zerofill (sn * 512) (nb * 512)
  end.

(** A write of 65536 bytes and a flush in flight, owned by coroutines 7
    and 8. *)
Definition two_in_flight : World :=
  with_heap (<[2%positive := {| acb_size := 0; acb_ret := 0;
                                acb_bh := None;
                                acb_coroutine := 8%positive |}]>
               (heap write_in_flight))
    write_in_flight.

(** A parameter whose name is one of [qemu_gluster_create_options]. *)
Definition declared_option (o : QEMUOptionParameter) : bool :=
  existsb (fun c => streq (opt_name o) (co_name c))
    qemu_gluster_create_options.
(** * Properties *)

(** ** Path decomposition *)

(** Every path splits in the way [path_canonical] asks for. *)
Lemma append_nil (s : string) : (EmptyString ++ s)%string = s.
Proof. reflexivity. Qed.

Lemma append_cons c (a b : string) :
  (String c a ++ b)%string = String c (a ++ b).
Proof. reflexivity. Qed.

Lemma slashes_S k : slashes (S k) = String "/" (slashes k).
Proof. reflexivity. Qed.

Ltac norm_append :=
  repeat first [rewrite append_nil | rewrite append_cons | rewrite slashes_S].

Lemma mem_slash c : mem c "/" = Ascii.eqb c "/".
Proof. simpl. destruct (Ascii.eqb c "/"); reflexivity. Qed.

Lemma strspn_slashes k s :
  no_leading_slash s = true ->
  strspn (slashes k ++ s) "/" = k.
Proof.
  intros Hs. induction k as [|k IH].
  - destruct s as [|c s]; [reflexivity|].
    cbn [slashes]. norm_append. cbn [strspn]. rewrite mem_slash.
    simpl in Hs. destruct (Ascii.eqb c "/"); [discriminate|reflexivity].
  - norm_append. cbn [strspn]. rewrite mem_slash, IH.
    reflexivity.
Qed.

Lemma advance_slashes k s : advance (slashes k ++ s) k = s.
Proof.
  induction k as [|k IH]; [reflexivity|]. norm_append. exact IH.
Qed.

Lemma strcspn_slash_free v rest :
  slash_free v = true ->
  no_leading_slash rest = false \/ rest = EmptyString ->
  strcspn (v ++ rest) "/" = String.length v.
Proof.
  intros Hv Hrest. induction v as [|c v IH].
  - destruct rest as [|d rest]; [reflexivity|].
    norm_append. cbn [strcspn]. rewrite mem_slash.
    destruct Hrest as [Hr|Hr]; [|discriminate].
    simpl in Hr. destruct (Ascii.eqb d "/"); [reflexivity|discriminate].
  - simpl in Hv. apply andb_prop in Hv as [Hc Hv].
    norm_append. cbn [strcspn String.length]. rewrite mem_slash.
    destruct (Ascii.eqb c "/"); [discriminate|].
    rewrite (IH Hv). reflexivity.
Qed.

Lemma advance_append v rest : advance (v ++ rest) (String.length v) = rest.
Proof.
  induction v as [|c v IH]; [reflexivity|]. norm_append. exact IH.
Qed.

Lemma g_strndup_append v rest : g_strndup (v ++ rest) (String.length v) = v.
Proof.
  induction v as [|c v IH]; [destruct rest; reflexivity|].
  norm_append. cbn [String.length g_strndup]. rewrite IH. reflexivity.
Qed.


Lemma run_split (s : string) :
  exists v rest, s = (v ++ rest)%string /\ slash_free v = true /\
    (rest = EmptyString \/ no_leading_slash rest = false) /\
    (v = EmptyString -> no_leading_slash s = false \/ s = EmptyString).
Proof.
  induction s as [|c s (v & rest & -> & Hv & Hrest & _)].
  - exists EmptyString, EmptyString. repeat split; auto.
  - destruct (Ascii.eqb c "/") eqn:Ec.
    + exists EmptyString, (String c (v ++ rest)). simpl. rewrite Ec.
      repeat split; auto.
    + exists (String c v), rest. simpl. rewrite Ec, Hv.
      repeat split; auto. discriminate.
Qed.

Lemma slashes_split (s : string) :
  exists k rest, s = (slashes k ++ rest)%string /\
    no_leading_slash rest = true.
Proof.
  induction s as [|c s (k & rest & -> & Hrest)].
  - exists O, EmptyString. split; reflexivity.
  - destruct (Ascii.eqb c "/") eqn:Ec.
    + apply Ascii.eqb_eq in Ec as ->. exists (S k), rest. split; auto.
    + exists O, (String c (slashes k ++ rest)). simpl. rewrite Ec.
      split; reflexivity.
Qed.

(** Every path splits in the way [path_canonical] asks for. *)
Lemma path_decomposition (path : string) :
  exists k vol m img,
    path = (slashes k ++ vol ++ slashes m ++ img)%string /\
    path_canonical vol m img.
Proof.
  destruct (slashes_split path) as (k & r1 & -> & Hr1).
  destruct (run_split r1) as (vol & r2 & -> & Hvol & Hr2 & Hempty).
  destruct (slashes_split r2) as (m & img & -> & Himg).
  exists k, vol, m, img. split; [reflexivity|].
  repeat split; auto.
  - intros ->. cbn [slashes] in Hr2. rewrite append_nil in Hr2.
    destruct Hr2 as [H|H]; [exact H|congruence].
  - intros ->. specialize (Hempty eq_refl).
    destruct m as [|m]; [reflexivity|].
    rewrite append_nil in Hempty, Hr1. norm_append.
    rewrite slashes_S, append_cons in Hempty, Hr1.
    destruct Hempty as [H|H]; [|discriminate].
    simpl in Hr1. discriminate.
Qed.

(** [C6] The path is split at its slashes: with [k] leading slashes
    stripped, [vol] the run without a slash that follows, [m] slashes
    after it and [img] the rest (which may hold further slashes),
    [parse_volume_options] returns [-EINVAL] when [vol] or [img] is empty
    and otherwise stores [vol] as the volume name and [img] as the image
    path. *)
Theorem parse_volume_options_splits_path
    (gconf : GlusterConf) (k : nat) (vol : string) (m : nat) (img : string) :
  path_canonical vol m img ->
  let path := (slashes k ++ vol ++ slashes m ++ img)%string in
  (vol = EmptyString \/ img = EmptyString ->
   fst (parse_volume_options gconf (Some path)) = - EINVAL) /\
  (vol <> EmptyString -> img <> EmptyString ->
   parse_volume_options gconf (Some path)
   = (0, set_image (set_volname gconf (Some vol)) (Some img))).
Proof.
  intros (Hvol & Himg & Hm & Hv) path.
  assert (Hrest : no_leading_slash (slashes m ++ img) = false
                  \/ (slashes m ++ img)%string = EmptyString).
  { destruct m as [|m]; [right; rewrite (Hm eq_refl); reflexivity|].
    left. reflexivity. }
  assert (Hlead : no_leading_slash (vol ++ slashes m ++ img) = true).
  { destruct vol as [|c vol].
    - rewrite (Hv eq_refl), (Hm (Hv eq_refl)). reflexivity.
    - simpl in Hvol |- *. apply andb_prop in Hvol as [Hc _]. exact Hc. }
  unfold parse_volume_options, path.
  rewrite (strspn_slashes k _ Hlead), advance_slashes.
  rewrite (strcspn_slash_free vol _ Hvol Hrest).
  rewrite advance_append, g_strndup_append.
  rewrite (strspn_slashes m img Himg), advance_slashes.
  split.
  - intros [-> | ->].
    + rewrite (Hv eq_refl), (Hm (Hv eq_refl)). reflexivity.
    + destruct m; simpl; reflexivity.
  - intros Hvne Hine.
    destruct m as [|m]; [elim Hine; auto|].
    destruct img as [|c img]; [elim Hine; reflexivity|]. reflexivity.
Qed.

Lemma parse_volume_options_splits_path_witness :
  path_canonical "testvol" 1 "dir/a.img" /\
  parse_volume_options gconf_zero (Some "/testvol/dir/a.img"%string)
  = (0, set_image (set_volname gconf_zero (Some "testvol"%string))
          (Some "dir/a.img"%string)).
Proof.
  assert (H : path_canonical "testvol" 1 "dir/a.img").
  { repeat split; intros; discriminate. }
  split; [exact H|].
  apply (proj2 (parse_volume_options_splits_path gconf_zero 1 "testvol" 1
                  "dir/a.img" H)); discriminate.
Defined.

Lemma parse_volume_options_null (gconf : GlusterConf) :
  parse_volume_options gconf None = (- EINVAL, gconf).
Proof. reflexivity. Qed.

(** ** The URI rules *)

Lemma parse_volume_options_status gconf path :
  fst (parse_volume_options gconf path) = 0 \/
  fst (parse_volume_options gconf path) = - EINVAL.
Proof.
  unfold parse_volume_options. destruct path as [path|]; [|right; reflexivity].
  repeat match goal with
         | |- context [if ?b then _ else _] => destruct b
         end; auto.
Qed.

Lemma qp_n_cases (qp : QueryParams) :
  (qp = [] /\ qp_n qp = 0) \/
  (exists p, qp = [p] /\ qp_n qp = 1) \/
  (exists p p' rest, qp = p :: p' :: rest /\ 1 < qp_n qp).
Proof.
  destruct qp as [|p [|p' rest]].
  - left. split; reflexivity.
  - right. left. exists p. split; reflexivity.
  - right. right. exists p, p', rest. split; [reflexivity|].
    unfold qp_n. cbn [List.length]. lia.
Qed.

Section ParseuriFacts.

Variable uri_parse : option string -> option URI.
Variable query_params_parse : option string -> QueryParams.

Abbreviation parseuri := (qemu_gluster_parseuri uri_parse query_params_parse).

(** What [qemu_gluster_parseuri] does for the UNIX scheme, after the
    scheme test. *)
Lemma parseuri_unix_unfold gconf filename uri :
  uri_parse filename = Some uri ->
  uri_scheme uri = Some "gluster+unix"%string ->
  parseuri gconf filename =
  let r := parse_volume_options
             (set_transport gconf (Some "unix"%string)) (uri_path uri) in
  if fst r <? 0 then r
  else parseuri_query query_params_parse (snd r) uri true.
Proof.
  intros Hu Hs. unfold qemu_gluster_parseuri. rewrite Hu, Hs.
  cbn -[parse_volume_options parseuri_query].
  destruct (parse_volume_options _ _) as [ret g]. reflexivity.
Qed.

Lemma parseuri_non_unix_unfold gconf filename uri :
  uri_parse filename = Some uri ->
  non_unix_scheme (uri_scheme uri) ->
  parseuri gconf filename =
  let r := parse_volume_options
             (set_transport gconf (transport_of_scheme (uri_scheme uri)))
             (uri_path uri) in
  if fst r <? 0 then r
  else parseuri_query query_params_parse (snd r) uri false.
Proof.
  intros Hu Hs. unfold qemu_gluster_parseuri. rewrite Hu.
  destruct Hs as [Hs | [Hs | Hs]]; rewrite Hs;
    cbn -[parse_volume_options parseuri_query];
    destruct (parse_volume_options _ _) as [ret g]; reflexivity.
Qed.

(** [C4] For the scheme [gluster+unix] the parser returns 0 or
    [-EINVAL]; it returns 0 only when the URI has no host and no port
    and its query is the single parameter [socket], whose value is then
    the stored server (the socket path); a host, a port, no parameter,
    more than one parameter or a parameter of another name all give
    [-EINVAL]; and with a well-formed path, no host, no port and the
    lone [socket] parameter the URI is accepted. *)
Theorem parseuri_unix_socket_rule gconf filename uri :
  uri_parse filename = Some uri ->
  uri_scheme uri = Some "gluster+unix"%string ->
  let qp := query_params_parse (uri_query uri) in
  let r := parseuri gconf filename in
  (fst r = 0 \/ fst r = - EINVAL) /\
  (fst r = 0 ->
   uri_server uri = None /\ uri_port uri = 0 /\
   exists v, qp = [{| qp_name := "socket"; qp_value := v |}] /\
             server (snd r) = v /\
             transport (snd r) = Some "unix"%string) /\
  (uri_server uri <> None \/ uri_port uri <> 0 \/ List.length qp <> 1%nat \/
   (exists p rest, qp = p :: rest /\ qp_name p <> "socket"%string) ->
   fst r = - EINVAL) /\
  (forall v,
      fst (parse_volume_options (set_transport gconf (Some "unix"%string))
             (uri_path uri)) = 0 ->
      uri_server uri = None -> uri_port uri = 0 ->
      qp = [{| qp_name := "socket"; qp_value := v |}] ->
      fst r = 0).
Proof.
  intros Hu Hs qp r. subst r.
  rewrite (parseuri_unix_unfold gconf filename uri Hu Hs). cbv zeta.
  pose proof (parse_volume_options_status
                (set_transport gconf (Some "unix"%string)) (uri_path uri))
    as Hst.
  assert (Htr : fst (parse_volume_options
                       (set_transport gconf (Some "unix"%string))
                       (uri_path uri)) = 0 ->
                transport (snd (parse_volume_options
                       (set_transport gconf (Some "unix"%string))
                       (uri_path uri))) = Some "unix"%string).
  { unfold parse_volume_options. destruct (uri_path uri); [|discriminate].
    repeat match goal with
           | |- context [if ?b then _ else _] => destruct b
           end; try discriminate; reflexivity. }
  destruct (parse_volume_options _ (uri_path uri)) as [ret g].
  cbn [fst snd] in *.
  destruct Hst as [-> | ->].
  2:{ cbn. repeat split; auto; try discriminate. }
  specialize (Htr eq_refl).
  change (0 <? 0) with false. cbv iota.
  unfold parseuri_query. fold qp.
  destruct (qp_n_cases qp) as
    [(Hq & Hn) | [(p & Hq & Hn) | (p & p' & rest & Hq & Hn)]].
  - rewrite Hn, Hq. cbn. repeat split; auto; try discriminate.
  - rewrite Hn, Hq. change (1 <? 1) with false. change (1 =? 0) with false.
    cbv beta iota delta [orb andb negb].
    destruct (uri_server uri) as [h|] eqn:Hh.
    { cbn. repeat split; auto; try discriminate. }
    destruct (uri_port uri =? 0) eqn:Hp.
    2:{ apply Z.eqb_neq in Hp. cbn. repeat split; auto; try discriminate.
        intros v _ _ Hp'. contradiction. }
    apply Z.eqb_eq in Hp. cbv beta iota delta [orb andb negb].
    destruct (streq (qp_name p) "socket") eqn:Hname.
    + apply String.eqb_eq in Hname. destruct p as [nm v]. cbn in Hname.
      subst nm. cbn. repeat split; auto.
      * exists v. repeat split; auto.
      * intros [H | [H | [H | (p0 & rest & H & Hne)]]]; try congruence.
        inversion H; subst. cbn in Hne. congruence.
    + apply String.eqb_neq in Hname. cbn.
      repeat split; auto; try discriminate.
      intros v _ _ _ Hv. inversion Hv; subst. cbn in Hname. congruence.
  - apply Z.ltb_lt in Hn. rewrite Hn. cbn.
    repeat split; auto; try discriminate.
    + intros v _ _ _ Hv. rewrite Hv in Hq. discriminate.
Qed.

(** [C7] For the schemes [gluster], [gluster+tcp] and [gluster+rdma]
    any query parameter gives [-EINVAL]; when the URI is accepted the
    stored server is the authority's host, or [localhost] when there is
    none, and the stored port is the authority's port, which is 0 when
    there is none; a well-formed path without a query is accepted. *)
Theorem parseuri_non_unix_rule gconf filename uri :
  uri_parse filename = Some uri ->
  non_unix_scheme (uri_scheme uri) ->
  let qp := query_params_parse (uri_query uri) in
  let r := parseuri gconf filename in
  (qp <> [] -> fst r = - EINVAL) /\
  (fst r = 0 ->
   qp = [] /\
   server (snd r) = Some (match uri_server uri with
                          | Some host => host
                          | None => "localhost"%string
                          end) /\
   port (snd r) = uri_port uri /\
   transport (snd r) = transport_of_scheme (uri_scheme uri)) /\
  (fst (parse_volume_options
          (set_transport gconf (transport_of_scheme (uri_scheme uri)))
          (uri_path uri)) = 0 ->
   qp = [] -> fst r = 0).
Proof.
  intros Hu Hs qp r. subst r.
  rewrite (parseuri_non_unix_unfold gconf filename uri Hu Hs). cbv zeta.
  set (g0 := set_transport gconf (transport_of_scheme (uri_scheme uri))).
  pose proof (parse_volume_options_status g0 (uri_path uri)) as Hst.
  assert (Htr : fst (parse_volume_options g0 (uri_path uri)) = 0 ->
                transport (snd (parse_volume_options g0 (uri_path uri)))
                = transport g0).
  { unfold parse_volume_options. destruct (uri_path uri); [|discriminate].
    repeat match goal with
           | |- context [if ?b then _ else _] => destruct b
           end; try discriminate; reflexivity. }
  destruct (parse_volume_options g0 (uri_path uri)) as [ret g].
  cbn [fst snd] in *.
  destruct Hst as [-> | ->].
  2:{ cbn. repeat split; auto; try discriminate. }
  specialize (Htr eq_refl).
  change (0 <? 0) with false. cbv iota.
  unfold parseuri_query. fold qp.
  destruct (qp_n_cases qp) as
    [(Hq & Hn) | [(p & Hq & Hn) | (p & p' & rest & Hq & Hn)]].
  - rewrite Hn. cbn. repeat split; auto.
    + intros H. contradiction.
    + destruct (uri_server uri); reflexivity.
  - rewrite Hn. cbn. repeat split; auto; try discriminate.
    intros _ H. rewrite H in Hq. discriminate.
  - apply Z.ltb_lt in Hn. rewrite Hn. cbn.
    repeat split; auto; try discriminate.
    intros _ H. rewrite H in Hq. discriminate.
Qed.

End ParseuriFacts.

Example parseuri_unix_example :
  qemu_gluster_parseuri (parse_as unix_example_uri)
    (query_as unix_example_query) gconf_zero
    (Some "gluster+unix:///testvol/dir/a.img?socket=/tmp/glusterd.socket"%string)
  = (0, {| server := Some "/tmp/glusterd.socket"%string; port := 0;
           volname := Some "testvol"%string;
           image := Some "dir/a.img"%string;
           transport := Some "unix"%string |}).
Proof. reflexivity. Qed.

Example parseuri_tcp_example :
  qemu_gluster_parseuri (parse_as tcp_example_uri) (query_as []) gconf_zero
    (Some "gluster+tcp://1.2.3.4:24007/testvol/dir/a.img"%string)
  = (0, {| server := Some "1.2.3.4"%string; port := 24007;
           volname := Some "testvol"%string;
           image := Some "dir/a.img"%string;
           transport := Some "tcp"%string |}).
Proof. reflexivity. Qed.

Lemma parseuri_unix_socket_rule_witness :
  fst (qemu_gluster_parseuri (parse_as unix_example_uri)
         (query_as unix_example_query) gconf_zero None) = 0 /\
  server (snd (qemu_gluster_parseuri (parse_as unix_example_uri)
                 (query_as unix_example_query) gconf_zero None))
  = Some "/tmp/glusterd.socket"%string.
Proof.
  pose proof (parseuri_unix_socket_rule (parse_as unix_example_uri)
                (query_as unix_example_query) gconf_zero None
                unix_example_uri eq_refl eq_refl) as (_ & Hacc & _ & Hok).
  assert (H0 : fst (qemu_gluster_parseuri (parse_as unix_example_uri)
                      (query_as unix_example_query) gconf_zero None) = 0).
  { apply (Hok (Some "/tmp/glusterd.socket"%string)); reflexivity. }
  split; [exact H0|].
  destruct (Hacc H0) as (_ & _ & v & Hv & Hsrv & _).
  rewrite Hsrv. injection Hv as <-. reflexivity.
Defined.

Lemma parseuri_non_unix_rule_witness :
  fst (qemu_gluster_parseuri (parse_as tcp_example_uri) (query_as [])
         gconf_zero None) = 0 /\
  server (snd (qemu_gluster_parseuri (parse_as tcp_example_uri)
                 (query_as []) gconf_zero None)) = Some "1.2.3.4"%string /\
  port (snd (qemu_gluster_parseuri (parse_as tcp_example_uri)
               (query_as []) gconf_zero None)) = 24007.
Proof.
  assert (Hs : non_unix_scheme (uri_scheme tcp_example_uri)).
  { right. left. reflexivity. }
  pose proof (parseuri_non_unix_rule (parse_as tcp_example_uri)
                (query_as []) gconf_zero None tcp_example_uri eq_refl Hs)
    as (_ & Hacc & Hok).
  assert (H0 : fst (qemu_gluster_parseuri (parse_as tcp_example_uri)
                      (query_as []) gconf_zero None) = 0).
  { apply Hok; reflexivity. }
  split; [exact H0|].
  destruct (Hacc H0) as (_ & Hsrv & Hport & _).
  split; [exact Hsrv | exact Hport].
Defined.

(** ** The completion path *)

Lemma to_int_small (x : Z) : INT_MIN <= x <= INT_MAX -> to_int x = x.
Proof.
  unfold to_int, INT_MIN, INT_MAX. intros H.
  rewrite Z.mod_small; lia.
Qed.

Lemma sectors_to_int64 (nb : Z) :
  INT_MIN <= nb <= INT_MAX ->
  to_int64 (sectors_to_bytes nb) = nb * BDRV_SECTOR_SIZE.
Proof.
  unfold to_int64, sectors_to_bytes, to_uint64, INT_MIN, INT_MAX,
    BDRV_SECTOR_SIZE. intros H.
  rewrite Z.mul_mod_idemp_l by lia.
  rewrite Z.add_mod_idemp_l by lia.
  replace ((nb * 512 + 2 ^ 63) mod 2 ^ 64) with (nb * 512 + 2 ^ 63); [lia|].
  symmetry. apply Z.mod_small. lia.
Qed.

(** The record after the callback: [ret] classified, [bh] the new bottom
    half. *)
Lemma gluster_finish_aiocb_record f b a w r :
  heap w !! a = Some r ->
  heap (snd (gluster_finish_aiocb f b a w)) !! a
  = Some {| acb_size := acb_size r;
            acb_ret := if (b =? 0) || (b =? acb_size r) then 0
                       else if b <? 0 then to_int b else - EIO;
            acb_bh := Some (fresh (dom (bhs w)));
            acb_coroutine := acb_coroutine r |}.
Proof.
  intros Hr. unfold gluster_finish_aiocb, mbind, load_size. rewrite Hr.
  destruct ((b =? 0) || (b =? acb_size r)); [|destruct (b <? 0)];
    cbn; rewrite !lookup_alter_eq, Hr; reflexivity.
Qed.

(** The coroutine entered by the bottom half returns the classified
    value and the record is gone. *)
Lemma complete_request_result self f b a w r :
  heap w !! a = Some r ->
  acb_coroutine r = self ->
  let w' := snd (complete_request self (after_yield a) f b a w) in
  fst (complete_request self (after_yield a) f b a w)
  = Some (if (b =? 0) || (b =? acb_size r) then 0
          else if b <? 0 then to_int b else - EIO) /\
  heap w' !! a = None /\ bhs w' = bhs w.
Proof.
  intros Hr Hco. unfold complete_request, mbind.
  pose proof (gluster_finish_aiocb_record f b a w r Hr) as Hrec.
  assert (Hb : bhs (snd (gluster_finish_aiocb f b a w))
               = <[fresh (dom (bhs w)) := (a, true)]> (bhs w)).
  { unfold gluster_finish_aiocb, mbind, load_size. rewrite Hr.
    destruct ((b =? 0) || (b =? acb_size r)); [|destruct (b <? 0)];
      cbn; rewrite alter_insert_eq; reflexivity. }
  destruct (gluster_finish_aiocb f b a w) as [[] w1]. cbn [snd] in Hrec, Hb.
  unfold qemu_gluster_complete_aio, mbind, load_bh, load_coroutine,
    qemu_bh_delete, acb_store. rewrite Hrec. cbn.
  rewrite lookup_alter_eq, Hrec. cbn.
  unfold qemu_coroutine_enter. rewrite Hco.
  destruct (decide (Some self = Some self)) as [_|Hne]; [|congruence].
  unfold after_yield, mbind, load_ret, g_slice_free, mreturn. cbn.
  rewrite lookup_alter_eq, Hrec. cbn.
  split; [reflexivity|]. split; [apply lookup_delete_eq|].
  rewrite Hb. apply delete_insert_id.
  apply not_elem_of_dom, is_fresh.
Qed.

(** [C1] After the callback has delivered byte count [b] for a record of
    expected size [s] (a byte count, so not negative), the coroutine
    returns 0 when [b] is 0 or [s], [b] itself when [b] is negative (and
    an [int], as error numbers are: [acb->ret] is one), and [-EIO] when
    [0 < b < s]. *)
Theorem completion_classification self f (b : Z) (a : handle) (w : World)
    (r : GlusterAIOCB) :
  heap w !! a = Some r ->
  acb_coroutine r = self ->
  0 <= acb_size r ->
  let resumed := fst (complete_request self (after_yield a) f b a w) in
  (b = 0 \/ b = acb_size r -> resumed = Some 0) /\
  (b < 0 -> INT_MIN <= b -> resumed = Some b) /\
  (0 < b < acb_size r -> resumed = Some (- EIO)).
Proof.
  intros Hr Hco Hs resumed.
  destruct (complete_request_result self f b a w r Hr Hco) as (Hres & _).
  subst resumed. rewrite Hres. repeat split.
  - intros [-> | ->]; [reflexivity|]. rewrite Z.eqb_refl, orb_true_r.
    reflexivity.
  - intros Hneg Hb.
    destruct (b =? 0) eqn:E0; [apply Z.eqb_eq in E0; lia|].
    destruct (b =? acb_size r) eqn:E1; [apply Z.eqb_eq in E1; lia|].
    cbn [orb]. destruct (b <? 0) eqn:E2; [|apply Z.ltb_ge in E2; lia].
    rewrite to_int_small; [reflexivity|]. unfold INT_MAX, INT_MIN in *. lia.
  - intros [Hpos Hlt].
    destruct (b =? 0) eqn:E0; [apply Z.eqb_eq in E0; lia|].
    destruct (b =? acb_size r) eqn:E1; [apply Z.eqb_eq in E1; lia|].
    cbn [orb]. destruct (b <? 0) eqn:E2; [apply Z.ltb_lt in E2; lia|].
    reflexivity.
Qed.

Lemma completion_classification_witness :
  fst (complete_request 7%positive (after_yield 1%positive) None 32768
         1%positive write_in_flight) = Some (- EIO) /\
  fst (complete_request 7%positive (after_yield 1%positive) None (- EIO)
         1%positive write_in_flight) = Some (- EIO).
Proof.
  assert (Hr : heap write_in_flight !! 1%positive
               = Some {| acb_size := 65536; acb_ret := 0; acb_bh := None;
                         acb_coroutine := 7%positive |})
    by apply lookup_singleton_eq.
  assert (Hs : 0 <= 65536) by lia.
  split.
  - apply (proj2 (proj2 (completion_classification 7%positive None 32768
                           1%positive write_in_flight _ Hr eq_refl Hs))).
    simpl. lia.
  - apply (proj1 (proj2 (completion_classification 7%positive None (- EIO)
                           1%positive write_in_flight _ Hr eq_refl Hs)));
      unfold EIO, INT_MIN; lia.
Defined.

(** ** Submission *)

Lemma to_int64_range (x : Z) : - 2 ^ 63 <= to_int64 x < 2 ^ 63.
Proof.
  unfold to_int64. pose proof (Z.mod_pos_bound (x + 2 ^ 63) (2 ^ 64)). lia.
Qed.

Lemma to_int64_small (x : Z) : - 2 ^ 63 <= x < 2 ^ 63 -> to_int64 x = x.
Proof. intros H. unfold to_int64. rewrite Z.mod_small; lia. Qed.

Lemma to_int64_idem (x : Z) : to_int64 (to_int64 x) = to_int64 x.
Proof. apply to_int64_small, to_int64_range. Qed.

Lemma to_uint64_idem (x : Z) : to_uint64 (to_uint64 x) = to_uint64 x.
Proof. unfold to_uint64. apply Z.mod_mod. lia. Qed.

Lemma sectors_to_bytes_uint64 (x : Z) :
  to_uint64 (sectors_to_bytes x) = sectors_to_bytes x.
Proof. apply to_uint64_idem. Qed.



Lemma fresh_heap (w : World) : heap w !! fresh (dom (heap w)) = None.
Proof. apply not_elem_of_dom, is_fresh. Qed.

(** The world after an operation's first run, in one place. *)
Lemma run_op_submit self s op w :
  INT_MIN <= nb_sectors_of op <= INT_MAX ->
  let a := fresh (dom (heap w)) in
  let o := replies w O in
  let rec := {| acb_size := expected_size op; acb_ret := 0;
                acb_bh := acb_bh (uninit w a); acb_coroutine := self |} in
  let e := match o_errno o with Some e => e | None => errno w end in
  run_op self s op w
  = if o_ret o <? 0
    then (Co_return (- e),
          with_heap (heap w)
            (with_trace (trace w ++ [Ev_async (fd s) (request_of op) a
                                       (Some rec)])
               (with_replies (fun i => replies w (S i))
                  (with_errno e
                     (with_heap (<[a:=rec]> (heap w)) w)))))
    else (Co_yield (after_yield a),
          with_trace (trace w ++ [Ev_async (fd s) (request_of op) a
                                    (Some rec)])
            (with_replies (fun i => replies w (S i))
               (with_errno e (with_heap (<[a:=rec]> (heap w)) w)))).
Proof.
  intros Hnb a o rec e.
  assert (Hsz : forall nb, INT_MIN <= nb <= INT_MAX ->
                  to_int64 (sectors_to_bytes nb) = nb * BDRV_SECTOR_SIZE)
    by apply sectors_to_int64.
  pose proof (fresh_heap w) as Hfresh. fold a in Hfresh.
  destruct op as [sn nb q | sn nb q | | sn nb | sn nb]; cbn in Hnb;
    unfold run_op, qemu_gluster_co_readv, qemu_gluster_co_writev,
      qemu_gluster_co_rw, qemu_gluster_co_flush_to_disk,
      qemu_gluster_co_discard, qemu_gluster_co_write_zeroes,
      glfs_preadv_async, glfs_pwritev_async, glfs_fsync_async,
      glfs_discard_async, glfs_zerofill_async, glfs_async, submit_failed,
      mbind, g_slice_new, acb_store, reply, get_errno, g_slice_free,
      mreturn;
    cbn -[to_int64 to_uint64 sectors_to_bytes fresh];
    fold a; fold o;
    rewrite ?to_int64_idem, ?sectors_to_bytes_uint64, ?(Hsz nb Hnb),
      !alter_insert_eq, ?lookup_insert_eq;
    destruct (o_ret o <? 0);
    cbn -[to_int64 to_uint64 sectors_to_bytes fresh];
    unfold with_heap, with_trace; cbn;
    rewrite ?delete_insert_id by exact Hfresh; reflexivity.
Qed.



(** ** Completions beyond the expected size *)

(** [C9] A byte count above the expected size (itself not negative) makes
    the coroutine return [-EIO]; so does every positive byte count for
    flush and discard, whose records expect 0. *)
Theorem completion_above_expected_size (self : handle) (s : BDRVGlusterState)
    f (b : Z) (a : handle) (w : World) (r : GlusterAIOCB) :
  heap w !! a = Some r ->
  acb_coroutine r = self ->
  0 <= acb_size r ->
  acb_size r < b ->
  fst (complete_request self (after_yield a) f b a w) = Some (- EIO) /\
  (forall op w0,
      is_flush_or_discard op ->
      INT_MIN <= nb_sectors_of op <= INT_MAX ->
      0 <= o_ret (replies w0 O) ->
      fst (run_to_completion self s op b w0) = Some (- EIO)).
Proof.
  intros Hr Hco Hs Hb.
  assert (Hcls : forall sz, 0 <= sz -> sz < b ->
            (if (b =? 0) || (b =? sz) then 0
             else if b <? 0 then to_int b else - EIO) = - EIO).
  { intros sz H0 H1.
    destruct (b =? 0) eqn:E0; [apply Z.eqb_eq in E0; lia|].
    destruct (b =? sz) eqn:E1; [apply Z.eqb_eq in E1; lia|].
    destruct (b <? 0) eqn:E2; [apply Z.ltb_lt in E2; lia|]. reflexivity. }
  split.
  - destruct (complete_request_result self f b a w r Hr Hco) as (Hres & _).
    rewrite Hres, (Hcls _ Hs Hb). reflexivity.
  - intros op w0 Hop Hnb Hacc.
    unfold run_to_completion, mbind.
    rewrite (run_op_submit self s op w0 Hnb).
    apply Z.ltb_ge in Hacc. rewrite Hacc. cbn [with_trace trace].
    rewrite last_snoc.
    match goal with
    | |- fst (complete_request _ _ _ _ ?a0 ?w1) = _ =>
        assert (Hrec : heap w1 !! a0
                       = Some {| acb_size := expected_size op; acb_ret := 0;
                                 acb_bh := acb_bh (uninit w0 a0);
                                 acb_coroutine := self |})
          by (cbn; apply lookup_insert_eq);
        destruct (complete_request_result self (fd s) b a0 w1 _ Hrec eq_refl)
          as (Hres & _)
    end.
    rewrite Hres. cbn [acb_size].
    assert (Hz : expected_size op = 0)
      by (destruct op; cbn in Hop; try contradiction; reflexivity).
    rewrite Hz. f_equal. apply Hcls; lia.
Qed.

Lemma completion_above_expected_size_witness :
  fst (complete_request 7%positive (after_yield 1%positive) None 65537
         1%positive write_in_flight) = Some (- EIO) /\
  fst (run_to_completion 7%positive
         {| glfs := Some 1%positive; fd := Some 2%positive |}
         Op_flush_to_disk 65537 (world0 (script []))) = Some (- EIO).
Proof.
  destruct (completion_above_expected_size 7%positive
              {| glfs := Some 1%positive; fd := Some 2%positive |}
              None 65537 1%positive write_in_flight
              {| acb_size := 65536; acb_ret := 0; acb_bh := None;
                 acb_coroutine := 7%positive |}) as [H1 H2].
  - apply lookup_singleton_eq.
  - reflexivity.
  - simpl. lia.
  - simpl. lia.
  - split; [exact H1|]. apply H2.
    + exact I.
    + unfold INT_MIN, INT_MAX. simpl. lia.
    + simpl. lia.
Defined.

(** ** Session bootstrap *)

Lemma fresh_not_volume (w : World) :
  fresh (volumes w ∪ files w) ∉ volumes w.
Proof.
  pose proof (is_fresh (volumes w ∪ files w)) as H.
  rewrite elem_of_union in H. tauto.
Qed.


Lemma add_remove (X : gset handle) (h : handle) :
  h ∉ X -> ({[h]} ∪ X) ∖ {[h]} = X.
Proof.
  intros H. apply set_eq. intros x.
  rewrite elem_of_difference, elem_of_union, elem_of_singleton.
  split; [tauto|]. intros Hx. split; [tauto|]. congruence.
Qed.

Lemma new_events_app (w w' : World) (evs : list event) :
  trace w' = trace w ++ evs -> new_events w w' = evs.
Proof. intros H. unfold new_events. rewrite H. apply drop_app_length. Qed.

Ltac run_driver :=
  unfold qemu_gluster_init, qemu_gluster_init_out, glfs_new,
    glfs_set_volfile_server, glfs_set_logging, glfs_init, glfs_fini,
    glfs_open, glfs_creat, glfs_ftruncate, glfs_zerofill, glfs_close,
    error_setg, set_errno, get_errno, log, reply, mbind, mreturn.

Ltac run_driver_in H :=
  unfold qemu_gluster_init, qemu_gluster_init_out, glfs_new,
    glfs_set_volfile_server, glfs_set_logging, glfs_init, glfs_fini,
    glfs_open, glfs_creat, glfs_ftruncate, glfs_zerofill, glfs_close,
    error_setg, set_errno, get_errno, log, reply, mbind, mreturn in H.

Section InitFacts.

Variable uri_parse : option string -> option URI.
Variable query_params_parse : option string -> QueryParams.

Abbreviation parseuri :=
  (qemu_gluster_parseuri uri_parse query_params_parse).
Abbreviation init := (qemu_gluster_init uri_parse query_params_parse).
Abbreviation failure := (init_failure uri_parse query_params_parse).

(** A bootstrap that goes through: the new handle is live, four calls
    were answered. *)
Lemma init_success gconf filename w :
  failure gconf filename w = None ->
  let gc := snd (parseuri gconf filename) in
  let h := fresh (volumes w ∪ files w) in
  init gconf filename w
  = (Some h, gc,
     {| errno := errno_after 4 w; replies := later_replies 4 w;
        volumes := {[h]} ∪ volumes w; files := files w; err := err w;
        trace := trace w ++
                 [Ev_new (volname gc) (Some h);
                  Ev_set_volfile_server h (transport gc) (server gc)
                    (port gc);
                  Ev_set_logging h "-" 4; Ev_init h];
        heap := heap w; bhs := bhs w; uninit := uninit w |}).
Proof.
  intros Hf gc h. unfold init_failure in Hf. subst gc h. run_driver.
  destruct (parseuri gconf filename) as [ret gc]. cbn [fst snd] in *.
  destruct (ret <? 0); [discriminate|].
  cbn. destruct (o_ret (replies w 0%nat) =? 0); [|discriminate].
  cbn. destruct (o_ret (replies w 1%nat) <? 0); [discriminate|].
  cbn. destruct (o_ret (replies w 2%nat) <? 0); [discriminate|].
  cbn. destruct (o_ret (replies w 3%nat) =? 0); [|discriminate].
  cbn. unfold with_trace, later_replies. cbn. rewrite <- !app_assoc.
  reflexivity.
Qed.

(** A bootstrap that fails at step [st]: no handle is returned, the
    live handles are the ones from before, and [errno] is what the
    failing step left (the error number of the usage error for the
    parser), whatever [glfs_fini] did to it. *)
Lemma init_failed gconf filename w st :
  failure gconf filename w = Some st ->
  let r := init gconf filename w in
  fst (fst r) = None /\
  snd (fst r) = snd (parseuri gconf filename) /\
  volumes (snd r) = volumes w /\
  files (snd r) = files w /\
  heap (snd r) = heap w /\
  errno (snd r) = match st with
                  | Step_parseuri => EINVAL
                  | _ => errno_after (calls_until st) w
                  end /\
  replies (snd r)
  = later_replies (calls_until st + if has_volume st then 1 else 0) w /\
  err (snd r)
  = match st with
    | Step_parseuri => Some Usage_error
    | Step_init =>
        let gc := snd (parseuri gconf filename) in
        Some (Connection_failed (errno_after 4 w) (server gc) (port gc)
                (volname gc) (image gc) (transport gc))
    | _ => err w
    end /\
  new_events w (snd r)
  = init_failure_events st (snd (parseuri gconf filename))
      (fresh (volumes w ∪ files w)).
Proof.
  intros Hf r. unfold init_failure in Hf. subst r. run_driver.
  assert (Hp : (fst (parseuri gconf filename) <? 0) = true ->
               fst (parseuri gconf filename) = - EINVAL).
  { intros Hneg. apply Z.ltb_lt in Hneg.
    unfold qemu_gluster_parseuri in *.
    destruct (uri_parse filename) as [uri|]; [|reflexivity].
    repeat match goal with
           | H : context [if ?b then _ else _] |- _ => destruct b
           end; try reflexivity;
    cbn -[parse_volume_options parseuri_query] in *;
    match goal with
    | |- context [parse_volume_options ?g ?p] =>
        pose proof (parse_volume_options_status g p) as Hst;
        destruct (parse_volume_options g p) as [rt g']
    end; cbn [fst] in *;
    (destruct Hst as [-> | ->]; [|reflexivity]);
    change (0 <? 0) with false in *; cbv iota in *;
    unfold parseuri_query in *;
    repeat match goal with
           | H : context [if ?b then _ else _] |- _ => destruct b
           | H : context [match ?l with [] => _ | _ :: _ => _ end] |- _ =>
               destruct l
           end; cbn in *; try reflexivity; lia. }
  destruct (parseuri gconf filename) as [ret gc]. cbn [fst snd] in *.
  destruct (ret <? 0) eqn:Hret.
  { injection Hf as <-. rewrite (Hp eq_refl). cbn.
    repeat split; try reflexivity.
    apply new_events_app. cbn. rewrite app_nil_r. reflexivity. }
  cbn. destruct (o_ret (replies w 0%nat) =? 0).
  2:{ injection Hf as <-. cbn. repeat split; try reflexivity.
      apply new_events_app. reflexivity. }
  pose proof (add_remove _ _ (fresh_not_volume w)) as Hvol.
  cbn. destruct (o_ret (replies w 1%nat) <? 0).
  { injection Hf as <-. cbn. rewrite Hvol. repeat split; try reflexivity.
    apply new_events_app. cbn. rewrite <- !app_assoc. reflexivity. }
  cbn. destruct (o_ret (replies w 2%nat) <? 0).
  { injection Hf as <-. cbn. rewrite Hvol. repeat split; try reflexivity.
    apply new_events_app. cbn. rewrite <- !app_assoc. reflexivity. }
  cbn. destruct (o_ret (replies w 3%nat) =? 0); [discriminate|].
  injection Hf as <-. cbn. rewrite Hvol. repeat split; try reflexivity.
  apply new_events_app. cbn. rewrite <- !app_assoc. reflexivity.
Qed.

End InitFacts.

(** ** Open *)

Lemma not_in_removed (X : gset handle) (h : handle) : h ∉ X ∖ {[h]}.
Proof. rewrite elem_of_difference, elem_of_singleton. tauto. Qed.

Lemma in_added (X : gset handle) (h : handle) : h ∈ {[h]} ∪ X.
Proof. rewrite elem_of_union, elem_of_singleton. tauto. Qed.

Lemma errno_after_failure (w : World) (n : nat) :
  errno_convention w ->
  o_ret (replies w n) <> 0 ->
  0 < errno_after (S n) w.
Proof.
  intros Hc Hf. destruct (Hc n Hf) as (e & He & Hpos).
  cbn [errno_after]. rewrite He. exact Hpos.
Qed.

Section OpenFacts.

Variable uri_parse : option string -> option URI.
Variable query_params_parse : option string -> QueryParams.
Variable QDict : Type.
Variable qemu_opts_absorb_qdict : QDict -> option Error.
Variable qemu_opt_get : QDict -> string -> option string.

Abbreviation gopen :=
  (qemu_gluster_open uri_parse query_params_parse QDict
     qemu_opts_absorb_qdict qemu_opt_get).
Abbreviation bootstrap_failure :=
  (init_failure uri_parse query_params_parse gconf_zero).




End OpenFacts.

(** ** Create *)

Section CreateFacts.

Variable uri_parse : option string -> option URI.
Variable query_params_parse : option string -> QueryParams.
Variable zf : bool.

Abbreviation create :=
  (qemu_gluster_create uri_parse query_params_parse zf).
Abbreviation scan := (create_options_loop zf).
Abbreviation boot_failure :=
  (init_failure uri_parse query_params_parse gconf_zero).
Abbreviation boot_gconf filename :=
  (snd (qemu_gluster_parseuri uri_parse query_params_parse gconf_zero
          filename)).

(** Create after a failed bootstrap: [-EINVAL], whatever the error
    number was, and the world bootstrap left. *)
Lemma create_bootstrap_failed filename options w st :
  boot_failure filename w = Some st ->
  create filename options w
  = (- EINVAL,
     snd (qemu_gluster_init uri_parse query_params_parse gconf_zero
            filename w)).
Proof.
  intros Hb.
  destruct (init_failed uri_parse query_params_parse gconf_zero filename w
              st Hb) as (Hg & _).
  unfold qemu_gluster_create, mbind.
  destruct (qemu_gluster_init _ _ _ _ w) as [[g gc] w1].
  cbn [fst snd] in *. subst g. reflexivity.
Qed.

(** Create after a bootstrap that succeeded and a scan that rejected the
    preallocation mode. *)
Lemma create_scan_rejected filename options w mode :
  boot_failure filename w = None ->
  scan options 0 0 = inl mode ->
  let r := create filename options w in
  fst r = - EINVAL /\
  err (snd r) = Some (Invalid_preallocation mode) /\
  volumes (snd r) = volumes w /\ files (snd r) = files w /\
  new_events w (snd r)
  = (let gc := boot_gconf filename in
     let h := fresh (volumes w ∪ files w) in
     [Ev_new (volname gc) (Some h);
      Ev_set_volfile_server h (transport gc) (server gc) (port gc);
      Ev_set_logging h "-" 4; Ev_init h; Ev_fini h]).
Proof.
  intros Hb Hscan r.
  assert (Hr : r = create filename options w) by reflexivity. clearbody r.
  pose proof (init_success uri_parse query_params_parse gconf_zero filename
                w Hb) as Hinit. cbv zeta in Hinit.
  unfold qemu_gluster_create in Hr. unfold mbind at 1 in Hr.
  rewrite Hinit, Hscan in Hr.
  unfold qemu_gluster_create_out in Hr. run_driver_in Hr. cbn in Hr.
  rewrite (add_remove _ _ (fresh_not_volume w)) in Hr. subst r.
  repeat split.
  apply new_events_app. cbn. rewrite <- app_assoc. reflexivity.
Qed.

(** Create after a bootstrap that succeeded and a scan that went
    through. *)
Lemma create_file_steps filename options w total_size prealloc :
  boot_failure filename w = None ->
  scan options 0 0 = inr (total_size, prealloc) ->
  let r := create filename options w in
  let gc := boot_gconf filename in
  let g := fresh (volumes w ∪ files w) in
  let f := fresh (({[g]} ∪ volumes w) ∪ files w) in
  let bytes := to_uint64 (to_uint64 total_size * BDRV_SECTOR_SIZE) in
  fst r = create_file_status zf prealloc w /\
  err (snd r) = err w /\
  volumes (snd r) = volumes w /\ files (snd r) = files w /\
  new_events w (snd r)
  = [Ev_new (volname gc) (Some g);
     Ev_set_volfile_server g (transport gc) (server gc) (port gc);
     Ev_set_logging g "-" 4; Ev_init g]
    ++ create_file_events zf prealloc w g f (image gc) bytes.
Proof.
  intros Hb Hscan r gc g f bytes.
  assert (Hr : r = create filename options w) by reflexivity. clearbody r.
  pose proof (init_success uri_parse query_params_parse gconf_zero filename
                w Hb) as Hinit. cbv zeta in Hinit.
  pose proof (add_remove _ _ (fresh_not_volume w)) as Hvol.
  assert (Hfile : ({[f]} ∪ files w) ∖ {[f]} = files w).
  { apply add_remove. subst f.
    pose proof (is_fresh (({[g]} ∪ volumes w) ∪ files w)) as H.
    rewrite elem_of_union in H. tauto. }
  fold g in Hinit, Hvol. fold gc in Hinit.
  unfold qemu_gluster_create in Hr. unfold mbind at 1 in Hr.
  rewrite Hinit, Hscan in Hr. fold bytes in Hr.
  unfold create_file_status, create_file_events, creat_failed,
    close_failed, close_index, zerofill_failed, zerofill_called,
    ftruncate_failed.
  unfold qemu_gluster_create_out, qemu_gluster_zerofill in Hr.
  run_driver_in Hr.
  unfold later_replies in Hr. cbn -[to_int64 to_uint64 bytes] in Hr.
  destruct (o_ret (replies w 4%nat) =? 0);
    cbn -[to_int64 to_uint64 bytes] in Hr |- *.
  2:{ rewrite Hvol in Hr. subst r. repeat split.
      apply new_events_app. cbn. rewrite <- !app_assoc. reflexivity. }
  fold f in Hr.
  destruct (o_ret (replies w 5%nat) =? 0);
    cbn -[to_int64 to_uint64 bytes] in Hr |- *.
  2:{ destruct (o_ret (replies w 6%nat) =? 0);
        cbn -[to_int64 to_uint64 bytes] in Hr |- *;
        rewrite Hvol, Hfile in Hr; subst r;
        (repeat split; []);
        apply new_events_app; cbn; rewrite <- !app_assoc; reflexivity. }
  destruct (prealloc =? 0); cbn -[to_int64 to_uint64 bytes] in Hr |- *.
  { destruct (o_ret (replies w 6%nat) =? 0);
      cbn -[to_int64 to_uint64 bytes] in Hr |- *;
      rewrite Hvol, Hfile in Hr; subst r;
      (repeat split; []);
      apply new_events_app; cbn; rewrite <- !app_assoc; reflexivity. }
  destruct zf; cbn -[to_int64 to_uint64 bytes] in Hr |- *.
  2:{ destruct (o_ret (replies w 6%nat) =? 0);
        cbn -[to_int64 to_uint64 bytes] in Hr |- *;
        rewrite Hvol, Hfile in Hr; subst r;
        (repeat split; []);
        apply new_events_app; cbn; rewrite <- !app_assoc; reflexivity. }
  rewrite !to_int64_idem in Hr. change (to_int64 0) with 0 in Hr.
  destruct (o_ret (replies w 6%nat) =? 0);
    cbn -[to_int64 to_uint64 bytes] in Hr |- *;
    destruct (o_ret (replies w 7%nat) =? 0);
    cbn -[to_int64 to_uint64 bytes] in Hr |- *;
    rewrite Hvol, Hfile in Hr; subst r;
    (repeat split; []);
    apply new_events_app; cbn; rewrite <- !app_assoc; reflexivity.
Qed.

End CreateFacts.

(** ** The parameter scan *)

Section ScanFacts.

Variable zf : bool.

Abbreviation scan := (create_options_loop zf).

Lemma scan_rejects options o :
  In o options -> prealloc_rejected zf o ->
  forall ts p, exists mode, scan options ts p = inl mode.
Proof.
  intros Hin (Hname & Hmode).
  induction options as [|o' options IH]; [destruct Hin|].
  intros ts p. destruct Hin as [-> | Hin].
  - cbn [create_options_loop]. rewrite Hname.
    change (streq BLOCK_OPT_PREALLOC BLOCK_OPT_SIZE) with false.
    change (streq BLOCK_OPT_PREALLOC BLOCK_OPT_PREALLOC) with true.
    cbv iota.
    destruct Hmode as [(Hfull & Hzf) | (m & Hm & Hoff & Hfull)].
    + rewrite Hfull. unfold gluster_supports_zerofill. rewrite Hzf.
      cbn. eauto.
    + rewrite Hm. apply String.eqb_neq in Hoff, Hfull.
      unfold streq. rewrite Hoff, Hfull. cbn. eauto.
  - specialize (IH Hin). cbn [create_options_loop].
    repeat match goal with
           | |- context [if ?b then _ else _] => destruct b
           | |- context [match value_s ?x with _ => _ end] =>
               destruct (value_s x)
           end; eauto.
Qed.

Lemma scan_off options :
  prealloc_off options ->
  forall ts, exists ts', scan options ts 0 = inr (ts', 0).
Proof.
  induction options as [|o options IH]; intros Hoff ts.
  - cbn. eauto.
  - assert (Hrest : prealloc_off options).
    { intros o' Hin. apply Hoff. right. exact Hin. }
    specialize (IH Hrest). cbn [create_options_loop].
    destruct (streq (opt_name o) BLOCK_OPT_SIZE); [apply IH|].
    destruct (streq (opt_name o) BLOCK_OPT_PREALLOC) eqn:Hname;
      [|apply IH].
    apply String.eqb_eq in Hname.
    destruct (Hoff o (or_introl eq_refl) Hname) as [-> | ->];
      [apply IH|].
    change (streq "off" "off") with true. cbv iota. apply IH.
Qed.

Lemma scan_keeps_size options :
  (forall o, In o options -> opt_name o <> BLOCK_OPT_SIZE) ->
  forall ts p ts' p', scan options ts p = inr (ts', p') -> ts' = ts.
Proof.
  induction options as [|o options IH]; intros Hno ts p ts' p' Hscan.
  - cbn in Hscan. congruence.
  - assert (Hrest : forall o', In o' options ->
                               opt_name o' <> BLOCK_OPT_SIZE).
    { intros o' Hin. apply Hno. right. exact Hin. }
    specialize (IH Hrest). cbn [create_options_loop] in Hscan.
    destruct (streq (opt_name o) BLOCK_OPT_SIZE) eqn:Hname.
    { apply String.eqb_eq in Hname. elim (Hno o (or_introl eq_refl) Hname). }
    repeat match type of Hscan with
           | context [if ?b then _ else _] => destruct b
           | context [match value_s ?x with _ => _ end] =>
               destruct (value_s x)
           end; try discriminate; eauto.
Qed.

Lemma scan_reads_size pre o post :
  opt_name o = BLOCK_OPT_SIZE ->
  (forall o', In o' post -> opt_name o' <> BLOCK_OPT_SIZE) ->
  forall ts p ts' p',
    scan (pre ++ o :: post) ts p = inr (ts', p') ->
    ts' = to_int64 (to_uint64 (value_n o) / BDRV_SECTOR_SIZE).
Proof.
  intros Hname Hpost. induction pre as [|o' pre IH]; intros ts p ts' p'.
  - rewrite app_nil_l. cbn [create_options_loop]. rewrite Hname.
    change (streq BLOCK_OPT_SIZE BLOCK_OPT_SIZE) with true. cbv iota.
    apply scan_keeps_size. exact Hpost.
  - rewrite <- app_comm_cons. cbn [create_options_loop]. intros Hscan.
    repeat match type of Hscan with
           | context [if ?b then _ else _] => destruct b
           | context [match value_s ?x with _ => _ end] =>
               destruct (value_s x)
           end; try discriminate; eauto.
Qed.

End ScanFacts.

Lemma sector_count_uint64 (n : Z) :
  0 <= n < 2 ^ 64 ->
  to_int64 (to_uint64 n / BDRV_SECTOR_SIZE) = n / 512.
Proof.
  unfold BDRV_SECTOR_SIZE, to_uint64. intros Hn.
  rewrite (Z.mod_small n) by lia.
  assert (H : 0 <= n / 512 < 2 ^ 55).
  { split; [apply Z.div_pos; lia|]. apply Z.div_lt_upper_bound; lia. }
  apply to_int64_small. lia.
Qed.

Lemma sector_count_exact (n : Z) :
  0 <= n <= INT64_MAX ->
  to_int64 (to_uint64 n / BDRV_SECTOR_SIZE) = n / 512 /\
  to_int64 (to_uint64 (to_uint64 (n / 512) * BDRV_SECTOR_SIZE))
  = n / 512 * 512.
Proof.
  unfold INT64_MAX, BDRV_SECTOR_SIZE, to_uint64. intros Hn.
  assert (H1 : 0 <= n / 512 <= n).
  { split; [apply Z.div_pos; lia|]. apply Z.div_le_upper_bound; lia. }
  assert (H2 : n / 512 * 512 <= n).
  { pose proof (Z.mul_div_le n 512). lia. }
  rewrite (Z.mod_small n) by lia.
  rewrite (Z.mod_small (n / 512)) by lia.
  rewrite (Z.mod_small (n / 512 * 512)) by lia.
  split; apply to_int64_small; lia.
Qed.

Section CreateProperties.

Variable uri_parse : option string -> option URI.
Variable query_params_parse : option string -> QueryParams.
Variable zf : bool.

Abbreviation create :=
  (qemu_gluster_create uri_parse query_params_parse zf).
Abbreviation bootstrap :=
  (qemu_gluster_init uri_parse query_params_parse).
Abbreviation scan := (create_options_loop zf).
Abbreviation boot_failure :=
  (init_failure uri_parse query_params_parse gconf_zero).

(** The events of a create call, path by path. *)
Lemma create_events filename options w :
  let r := create filename options w in
  let gc := snd (qemu_gluster_parseuri uri_parse query_params_parse
                   gconf_zero filename) in
  let g := fresh (volumes w ∪ files w) in
  let f := fresh (({[g]} ∪ volumes w) ∪ files w) in
  volumes (snd r) = volumes w /\ files (snd r) = files w /\
  match boot_failure filename w with
  | Some st =>
      fst r = - EINVAL /\
      new_events w (snd r) = init_failure_events st gc g
  | None =>
      match scan options 0 0 with
      | inl mode =>
          fst r = - EINVAL /\
          err (snd r) = Some (Invalid_preallocation mode) /\
          new_events w (snd r)
          = [Ev_new (volname gc) (Some g);
             Ev_set_volfile_server g (transport gc) (server gc) (port gc);
             Ev_set_logging g "-" 4; Ev_init g; Ev_fini g]
      | inr (total_size, prealloc) =>
          fst r = create_file_status zf prealloc w /\
          new_events w (snd r)
          = [Ev_new (volname gc) (Some g);
             Ev_set_volfile_server g (transport gc) (server gc) (port gc);
             Ev_set_logging g "-" 4; Ev_init g]
            ++ create_file_events zf prealloc w g f (image gc)
                 (to_uint64 (to_uint64 total_size * BDRV_SECTOR_SIZE))
      end
  end.
Proof.
  intros r gc g f.
  destruct (boot_failure filename w) as [st|] eqn:Hb.
  - subst r. rewrite (create_bootstrap_failed _ _ _ filename options w st Hb).
    destruct (init_failed uri_parse query_params_parse gconf_zero filename
                w st Hb) as (_ & _ & Hv & Hf & _ & _ & _ & _ & Hev).
    cbn [fst snd]. auto.
  - destruct (scan options 0 0) as [mode | [total_size prealloc]] eqn:Hs.
    + destruct (create_scan_rejected _ _ _ filename options w mode Hb Hs)
        as (Hret & Herr & Hv & Hf & Hev). auto 10.
    + destruct (create_file_steps _ _ _ filename options w total_size
                  prealloc Hb Hs) as (Hret & _ & Hv & Hf & Hev). auto 10.
Qed.

(** [C2, amended] A bootstrap that fails returns no handle, leaves the
    live handles as they were (the volume handle it made is finalized)
    and leaves in [errno] the error number of the failing step, whatever
    the finalization did to [errno].  Create releases every handle it
    acquired on every path.  After a bootstrap that went through it
    returns [-EINVAL] for a rejected preallocation mode and otherwise
    [create_file_status]: the error number of [glfs_creat] when that
    fails, else the one of the close when the close fails, else the one
    of the truncation or of the zero-fill; the file was closed if it was
    created, the volume is finalized last and its answer does not enter
    the status. *)
Theorem teardown_releases_and_reports filename options w :
  (forall gconf st,
      init_failure uri_parse query_params_parse gconf filename w = Some st ->
      let r := bootstrap gconf filename w in
      fst (fst r) = None /\
      volumes (snd r) = volumes w /\ files (snd r) = files w /\
      errno (snd r) = match st with
                      | Step_parseuri => EINVAL
                      | _ => errno_after (calls_until st) w
                      end /\
      (has_volume st = true ->
       last (new_events w (snd r))
       = Some (Ev_fini (fresh (volumes w ∪ files w))))) /\
  (let r := create filename options w in
   volumes (snd r) = volumes w /\ files (snd r) = files w /\
   (boot_failure filename w = None ->
    match scan options 0 0 with
    | inl _ => fst r = - EINVAL
    | inr (_, prealloc) =>
        fst r = create_file_status zf prealloc w /\
        (creat_failed w = false ->
         exists f, In (Ev_close f) (new_events w (snd r))) /\
        last (new_events w (snd r))
        = Some (Ev_fini (fresh (volumes w ∪ files w)))
    end)).
Proof.
  split.
  - intros gconf st Hst r.
    destruct (init_failed uri_parse query_params_parse gconf filename w st
                Hst) as (Hg & _ & Hv & Hf & _ & He & _ & _ & Hev).
    fold r in Hg, Hv, Hf, He, Hev. repeat split; auto.
    intros Hvol. rewrite Hev. destruct st; try discriminate; reflexivity.
  - intros r.
    destruct (create_events filename options w) as (Hv & Hf & Hpath).
    fold r in Hv, Hf, Hpath. repeat split; auto.
    intros Hb. rewrite Hb in Hpath.
    destruct (scan options 0 0) as [mode | [ts p]]; [tauto|].
    destruct Hpath as (Hret & Hev). split; [exact Hret|].
    rewrite Hev. unfold create_file_events. split.
    + intros ->. eexists. apply in_or_app. right.
      apply in_or_app. right. apply in_or_app. right. left. reflexivity.
    + destruct (creat_failed w); [reflexivity|].
      destruct (zerofill_called zf p w); reflexivity.
Qed.

(** [C8, amended] After a bootstrap that went through, a create call
    whose parameters hold a rejected preallocation entry ([full] without
    zero-fill compiled in, or a mode other than [off] and [full]) returns
    [-EINVAL] with the preallocation diagnostic; with preallocation absent
    or [off] the scan ends without preallocation and the library is never
    asked to zero-fill. *)
Theorem create_preallocation_modes filename options w :
  boot_failure filename w = None ->
  let r := create filename options w in
  ((exists o, In o options /\ prealloc_rejected zf o) ->
   fst r = - EINVAL /\
   exists mode, err (snd r) = Some (Invalid_preallocation mode)) /\
  (prealloc_off options ->
   (exists ts, scan options 0 0 = inr (ts, 0)) /\
   forallb (fun ev => negb (is_zerofill ev)) (new_events w (snd r))
   = true).
Proof.
  intros Hb r.
  destruct (create_events filename options w) as (_ & _ & Hpath).
  fold r in Hpath. rewrite Hb in Hpath. split.
  - intros (o & Hin & Hrej).
    destruct (scan_rejects zf options o Hin Hrej 0 0) as (mode & Hs).
    rewrite Hs in Hpath.
    destruct Hpath as (Hret & Herr & _). split; [exact Hret|]. eauto.
  - intros Hoff.
    destruct (scan_off zf options Hoff 0) as (ts & Hs).
    rewrite Hs in Hpath. destruct Hpath as (_ & Hev).
    split; [eauto|]. rewrite Hev.
    unfold create_file_events, zerofill_called.
    change (0 =? 0) with true. cbn [negb]. rewrite andb_false_r.
    cbn [andb]. destruct (creat_failed w); reflexivity.
Qed.

(** [C10] With a [size] parameter of [n] bytes (the last of its name)
    the scan keeps [n / 512] sectors; for [n] within [int64_t], the range
    of a file length, every truncation the call asks of the library is to
    [n / 512 * 512] bytes and every zero-fill is of that many bytes from
    offset 0; the truncation is asked for as soon as the file was
    created, and the zero-fill whenever the driver preallocates. *)
Theorem create_rounds_size_down filename pre o post n w :
  opt_name o = BLOCK_OPT_SIZE ->
  value_n o = n ->
  (forall o', In o' post -> opt_name o' <> BLOCK_OPT_SIZE) ->
  0 <= n < 2 ^ 64 ->
  let options := pre ++ o :: post in
  let r := create filename options w in
  (forall ts p, scan options 0 0 = inr (ts, p) -> ts = n / 512) /\
  (n <= INT64_MAX ->
   (forall f len, In (Ev_ftruncate f len) (new_events w (snd r)) ->
                  len = n / 512 * 512) /\
   (forall f off len, In (Ev_zerofill f off len) (new_events w (snd r)) ->
                      off = 0 /\ len = n / 512 * 512) /\
   (forall ts p,
       boot_failure filename w = None ->
       scan options 0 0 = inr (ts, p) ->
       creat_failed w = false ->
       exists f,
         In (Ev_ftruncate f (n / 512 * 512)) (new_events w (snd r)) /\
         (zerofill_called zf p w = true ->
          In (Ev_zerofill f 0 (n / 512 * 512)) (new_events w (snd r))))).
Proof.
  intros Hname Hval Hpost Hn options r.
  assert (Hts : forall ts p, scan options 0 0 = inr (ts, p) ->
                             ts = n / 512).
  { intros ts p Hs.
    rewrite (scan_reads_size zf pre o post Hname Hpost 0 0 ts p Hs).
    rewrite Hval. apply sector_count_uint64. exact Hn. }
  split; [exact Hts|]. intros Hmax.
  assert (Hn' : 0 <= n <= INT64_MAX) by lia.
  destruct (sector_count_exact n Hn') as (_ & Hbytes).
  destruct (create_events filename options w) as (_ & _ & Hpath).
  fold r in Hpath.
  destruct (boot_failure filename w) as [st|].
  { destruct Hpath as (_ & Hev). rewrite Hev.
    repeat split; try discriminate;
      destruct st; cbn in *; intuition discriminate. }
  destruct (scan options 0 0) as [mode | [ts p]] eqn:Hs.
  { destruct Hpath as (_ & _ & Hev). rewrite Hev.
    repeat split; try discriminate; cbn in *; intuition discriminate. }
  destruct Hpath as (_ & Hev). rewrite Hev.
  unfold create_file_events.
  rewrite (Hts ts p eq_refl), Hbytes.
  split; [|split].
  - intros f len Hin.
    destruct (creat_failed w); [cbn in Hin; intuition discriminate|].
    destruct (zerofill_called zf p w); cbn in Hin;
      intuition (try discriminate; congruence).
  - intros f off len Hin.
    destruct (creat_failed w); [cbn in Hin; intuition discriminate|].
    destruct (zerofill_called zf p w); cbn in Hin;
      intuition (try discriminate; congruence).
  - intros ts' p' _ [= <- <-] ->.
    eexists. split.
    + cbn. do 5 right. left. reflexivity.
    + intros ->. cbn. do 6 right. left. reflexivity.
Qed.

End CreateProperties.

(** ** Sample runs *)

Lemma script_convention (l : list outcome) :
  Forall (fun o => o_ret o <> 0 ->
                   exists e, o_errno o = Some e /\ 0 < e) l ->
  errno_convention (world0 (script l)).
Proof.
  intros Hl i. cbn [world0 replies]. unfold script.
  destruct (nth_in_or_default i l ok) as [Hin | ->].
  - rewrite Forall_forall in Hl. apply Hl. rewrite list_elem_of_In.
    exact Hin.
  - cbn. intros H. elim H. reflexivity.
Qed.

Lemma missing_image_convention : errno_convention missing_image.
Proof.
  apply script_convention.
  repeat constructor; cbn; try (intros H; elim H; reflexivity).
  intros _. exists ENOENT. split; [reflexivity|]. unfold ENOENT. lia.
Qed.


(** Bootstrap: the connection is refused (error number 111) and
    [glfs_fini] then leaves 9 in [errno]; the caller still finds 111. *)
Lemma teardown_releases_and_reports_witness :
  errno (snd (qemu_gluster_init (parse_as tcp_example_uri) (query_as [])
                gconf_zero tcp_example_filename refused_connection)) = 111 /\
  volumes (snd (qemu_gluster_init (parse_as tcp_example_uri) (query_as [])
                  gconf_zero tcp_example_filename refused_connection)) = ∅.
Proof.
  destruct (teardown_releases_and_reports (parse_as tcp_example_uri)
              (query_as []) false tcp_example_filename [] refused_connection)
    as (H & _).
  destruct (H gconf_zero Step_init eq_refl) as (_ & Hv & _ & He & _).
  split; [exact He | exact Hv].
Defined.

(** [C2, counterexample] The truncation fails with [ENOSPC], the close
    that follows fails with [EIO]: create returns [-EIO], not the error
    number that made the call fail. *)
Lemma create_close_replaces_first_error :
  init_failure (parse_as tcp_example_uri) (query_as []) gconf_zero
    tcp_example_filename disk_full_then_close_fails = None /\
  creat_failed disk_full_then_close_fails = false /\
  ftruncate_failed disk_full_then_close_fails = true /\
  errno_after 6 disk_full_then_close_fails = ENOSPC /\
  fst (example_create false [size_option 1048576]
         disk_full_then_close_fails) = - EIO /\
  fst (example_create false [size_option 1048576]
         disk_full_then_close_fails) <> - ENOSPC.
Proof.
  assert (H : fst (example_create false [size_option 1048576]
                     disk_full_then_close_fails) = - EIO).
  { destruct (create_file_steps (parse_as tcp_example_uri) (query_as [])
                false tcp_example_filename [size_option 1048576]
                disk_full_then_close_fails 2048 0 eq_refl eq_refl)
      as (Hret & _).
    exact Hret. }
  repeat split; try reflexivity; try exact H.
  rewrite H. discriminate.
Qed.

(** [C8, counterexample] [preallocation=full] without zero-fill, and the
    library has no memory for a volume handle: create returns [-EINVAL]
    and no diagnostic is set. *)
Lemma create_rejected_without_diagnostic :
  prealloc_rejected false (prealloc_option (Some "full"%string)) /\
  err out_of_memory = None /\
  fst (example_create false [prealloc_option (Some "full"%string)]
         out_of_memory) = - EINVAL /\
  err (snd (example_create false [prealloc_option (Some "full"%string)]
              out_of_memory)) = None.
Proof.
  assert (Hb : init_failure (parse_as tcp_example_uri) (query_as [])
                 gconf_zero tcp_example_filename out_of_memory
               = Some Step_new) by reflexivity.
  pose proof (create_bootstrap_failed (parse_as tcp_example_uri)
                (query_as []) false tcp_example_filename
                [prealloc_option (Some "full"%string)] out_of_memory
                Step_new Hb) as Hc.
  destruct (init_failed (parse_as tcp_example_uri) (query_as []) gconf_zero
              tcp_example_filename out_of_memory Step_new Hb)
    as (_ & _ & _ & _ & _ & _ & _ & Herr & _).
  unfold example_create. rewrite Hc. cbn [fst snd].
  repeat split; auto.
Qed.

Lemma create_preallocation_modes_witness :
  fst (example_create false [prealloc_option (Some "full"%string)]
         (world0 (script []))) = - EINVAL /\
  exists mode,
    err (snd (example_create false [prealloc_option (Some "full"%string)]
                (world0 (script [])))) = Some (Invalid_preallocation mode).
Proof.
  destruct (create_preallocation_modes (parse_as tcp_example_uri)
              (query_as []) false tcp_example_filename
              [prealloc_option (Some "full"%string)] (world0 (script []))
              eq_refl) as (H & _).
  apply H.
  exists (prealloc_option (Some "full"%string)).
  split; [left; reflexivity|].
  split; [reflexivity|]. left. split; reflexivity.
Defined.

Lemma create_rounds_size_down_witness :
  0 <= 1000 < 2 ^ 64 /\
  exists f, In (Ev_ftruncate f 512)
              (new_events (world0 (script []))
                 (snd (example_create false [size_option 1000]
                         (world0 (script []))))).
Proof.
  assert (Hn : 0 <= 1000 < 2 ^ 64) by lia.
  split; [exact Hn|].
  destruct (create_rounds_size_down (parse_as tcp_example_uri) (query_as [])
              false tcp_example_filename [] (size_option 1000) [] 1000
              (world0 (script [])) eq_refl eq_refl
              (fun o' (H : In o' []) => match H with end) Hn)
    as (_ & H).
  assert (Hmax : 1000 <= INT64_MAX) by (unfold INT64_MAX; lia).
  destruct (H Hmax) as (_ & _ & H').
  destruct (H' 1 0 eq_refl eq_refl eq_refl) as (f & Hf & _).
  exists f. exact Hf.
Defined.

(** * Further properties *)

(** ** The parser *)

(** [parse_volume_options] on a split path. *)
Lemma parse_volume_options_on_split gconf k vol m img :
  path_canonical vol m img ->
  parse_volume_options gconf
    (Some (slashes k ++ vol ++ slashes m ++ img)%string)
  = if at_nul (slashes m ++ img) then (- EINVAL, gconf)
    else if at_nul img
         then (- EINVAL, set_volname gconf (Some vol))
         else (0, set_image (set_volname gconf (Some vol)) (Some img)).
Proof.
  intros (Hvol & Himg & Hm & Hv).
  assert (Hrest : no_leading_slash (slashes m ++ img) = false
                  \/ (slashes m ++ img)%string = EmptyString).
  { destruct m as [|m]; [right; rewrite (Hm eq_refl); reflexivity|].
    left. reflexivity. }
  assert (Hlead : no_leading_slash (vol ++ slashes m ++ img) = true).
  { destruct vol as [|c vol].
    - rewrite (Hv eq_refl), (Hm (Hv eq_refl)). reflexivity.
    - simpl in Hvol |- *. apply andb_prop in Hvol as [Hc _]. exact Hc. }
  unfold parse_volume_options.
  rewrite (strspn_slashes k _ Hlead), advance_slashes.
  rewrite (strcspn_slash_free vol _ Hvol Hrest).
  rewrite advance_append, g_strndup_append.
  rewrite (strspn_slashes m img Himg), advance_slashes.
  reflexivity.
Qed.

(** What an accepted path looks like. *)
Lemma parse_volume_options_inv gconf path gconf' :
  parse_volume_options gconf (Some path) = (0, gconf') ->
  exists k vol m img,
    path = (slashes k ++ vol ++ slashes (S m) ++ img)%string /\
    slash_free vol = true /\ vol <> EmptyString /\
    no_leading_slash img = true /\ img <> EmptyString /\
    gconf' = set_image (set_volname gconf (Some vol)) (Some img).
Proof.
  destruct (path_decomposition path) as (k & vol & m & img & -> & Hc).
  rewrite (parse_volume_options_on_split gconf k vol m img Hc).
  destruct Hc as (Hvol & Himg & Hm & Hv).
  destruct m as [|m].
  - rewrite (Hm eq_refl). cbn. discriminate.
  - rewrite slashes_S, append_cons. cbn [at_nul].
    destruct img as [|c img]; cbn [at_nul]; [discriminate|].
    intros [= <-]. exists k, vol, m, (String c img).
    repeat split; auto; try discriminate.
    intros ->. specialize (Hv eq_refl). discriminate.
Qed.

Lemma parseuri_query_keeps qpp gconf uri is_unix :
  let r := parseuri_query qpp gconf uri is_unix in
  (fst r = 0 \/ fst r = - EINVAL) /\
  volname (snd r) = volname gconf /\ image (snd r) = image gconf /\
  transport (snd r) = transport gconf /\
  (fst r = - EINVAL -> snd r = gconf).
Proof.
  unfold parseuri_query.
  repeat match goal with
         | |- context [if ?b then _ else _] => destruct b
         | |- context [match ?l with [] => _ | _ :: _ => _ end] => destruct l
         end; cbn; repeat split; auto; discriminate.
Qed.

(** [qemu_gluster_parseuri] by the scheme's transport. *)
Lemma parseuri_by_transport uri_parse qpp gconf filename :
  qemu_gluster_parseuri uri_parse qpp gconf filename
  = match uri_parse filename with
    | None => (- EINVAL, gconf)
    | Some uri =>
        match known_transport (uri_scheme uri) with
        | None => (- EINVAL, gconf)
        | Some (tr, is_unix) =>
            let r := parse_volume_options (set_transport gconf (Some tr))
                       (uri_path uri) in
            if fst r <? 0 then r
            else parseuri_query qpp (snd r) uri is_unix
        end
    end.
Proof.
  unfold qemu_gluster_parseuri, known_transport, streq.
  destruct (uri_parse filename) as [uri|]; [|reflexivity].
  destruct (uri_scheme uri) as [s|]; cbn [orb].
  - destruct (String.eqb s "gluster"); cbn [orb].
    { destruct (parse_volume_options _ _); reflexivity. }
    destruct (String.eqb s "gluster+tcp").
    { destruct (parse_volume_options _ _); reflexivity. }
    destruct (String.eqb s "gluster+unix").
    { destruct (parse_volume_options _ _); reflexivity. }
    destruct (String.eqb s "gluster+rdma"); [|reflexivity].
    destruct (parse_volume_options _ _); reflexivity.
  - destruct (parse_volume_options _ _); reflexivity.
Qed.

Lemma parse_volume_options_failure_keeps gconf path :
  let r := parse_volume_options gconf path in
  server (snd r) = server gconf /\ port (snd r) = port gconf /\
  transport (snd r) = transport gconf.
Proof.
  unfold parse_volume_options. destruct path; [|auto].
  repeat match goal with
         | |- context [if ?b then _ else _] => destruct b
         end; auto.
Qed.

(** [X1] The parser returns 0 or [-EINVAL] and nothing else, whatever the
    URI parser hands it; when it returns 0 the descriptor holds a volume
    name that is not empty and has no slash, an image path that is not
    empty and does not start with a slash, and one of the transports
    [tcp], [unix] and [rdma]. *)
Theorem parseuri_descriptor_complete uri_parse qpp gconf filename :
  let r := qemu_gluster_parseuri uri_parse qpp gconf filename in
  (fst r = 0 \/ fst r = - EINVAL) /\
  (fst r = 0 ->
   exists vol img tr,
     volname (snd r) = Some vol /\ vol <> EmptyString /\
     slash_free vol = true /\
     image (snd r) = Some img /\ img <> EmptyString /\
     no_leading_slash img = true /\
     transport (snd r) = Some tr /\
     (tr = "tcp" \/ tr = "unix" \/ tr = "rdma")%string).
Proof.
  intros r. subst r. rewrite parseuri_by_transport.
  destruct (uri_parse filename) as [uri|];
    [|split; [right; reflexivity|discriminate]].
  assert (Htr : forall tr u, known_transport (uri_scheme uri) = Some (tr, u)
                  -> (tr = "tcp" \/ tr = "unix" \/ tr = "rdma")%string).
  { unfold known_transport. intros tr u.
    destruct (uri_scheme uri) as [s|]; [|intros [= <- <-]; auto].
    repeat match goal with
           | |- context [if ?b then _ else _] => destruct b
           end; intros [= <- <-]; auto. }
  destruct (known_transport (uri_scheme uri)) as [[tr is_unix]|];
    [|split; [right; reflexivity|discriminate]].
  specialize (Htr tr is_unix eq_refl). cbv zeta.
  pose proof (parse_volume_options_status
                (set_transport gconf (Some tr)) (uri_path uri)) as Hst.
  destruct (parse_volume_options (set_transport gconf (Some tr))
              (uri_path uri)) as [ret g] eqn:Hp.
  cbn [fst snd] in *.
  destruct Hst as [-> | ->];
    [|split; [right; reflexivity|discriminate]].
  change (0 <? 0) with false. cbv iota.
  destruct (parseuri_query_keeps qpp g uri is_unix)
    as (Hq & Hv & Hi & Ht & _).
  split; [exact Hq|]. intros _.
  destruct (uri_path uri) as [path|]; [|discriminate].
  destruct (parse_volume_options_inv _ _ _ Hp)
    as (k & vol & m & img & _ & Hsf & Hvne & Hnl & Hine & ->).
  exists vol, img, tr. rewrite Hv, Hi, Ht. cbn.
  repeat split; auto.
Qed.

(** [X2] A path that was accepted gives the same volume name and image
    when it is parsed again in its canonical form, [/volname/image]: extra
    slashes before the volume name and between the two parts do not
    count. *)
Theorem parse_volume_options_canonical_again gconf path gconf' :
  parse_volume_options gconf (Some path) = (0, gconf') ->
  exists vol img,
    volname gconf' = Some vol /\ image gconf' = Some img /\
    parse_volume_options gconf (Some (canonical_path vol img)) = (0, gconf').
Proof.
  intros Hp.
  destruct (parse_volume_options_inv _ _ _ Hp)
    as (k & vol & m & img & _ & Hsf & Hvne & Hnl & Hine & ->).
  exists vol, img. split; [reflexivity|]. split; [reflexivity|].
  assert (Hc : path_canonical vol 1 img).
  { repeat split; auto; [discriminate | intros ->; congruence]. }
  pose proof (parse_volume_options_on_split gconf 1 vol 1 img Hc) as H.
  unfold canonical_path.
  change ("/" ++ vol ++ "/" ++ img)%string
    with (slashes 1 ++ vol ++ slashes 1 ++ img)%string.
  rewrite H. rewrite slashes_S, append_cons. cbn [at_nul].
  destruct img; [congruence|reflexivity].
Qed.

Lemma parse_volume_options_canonical_again_witness :
  exists vol img,
    volname (set_image (set_volname gconf_zero (Some "testvol"%string))
               (Some "dir/a.img"%string)) = Some vol /\
    image (set_image (set_volname gconf_zero (Some "testvol"%string))
             (Some "dir/a.img"%string)) = Some img /\
    parse_volume_options gconf_zero (Some (canonical_path vol img))
    = (0, set_image (set_volname gconf_zero (Some "testvol"%string))
            (Some "dir/a.img"%string)).
Proof.
  apply (parse_volume_options_canonical_again gconf_zero
           "///testvol//dir/a.img").
  reflexivity.
Defined.

(** [X3] A URI without a scheme, with the scheme [gluster] and with the
    scheme [gluster+tcp] are parsed alike: the descriptor's transport is
    [tcp], also when the path or the query is rejected afterwards, and
    the status and the descriptor are the same for the three
    spellings. *)
Theorem parseuri_default_transport_is_tcp qpp gconf filename
    (uri : URI) (sch sch' : option string) :
  tcp_spelling sch -> tcp_spelling sch' ->
  let r := qemu_gluster_parseuri (parse_as (with_scheme sch uri)) qpp gconf
             filename in
  transport (snd r) = Some "tcp"%string /\
  r = qemu_gluster_parseuri (parse_as (with_scheme sch' uri)) qpp gconf
        filename.
Proof.
  intros H H' r. subst r.
  assert (Hk : forall x, tcp_spelling x ->
                 known_transport x = Some ("tcp"%string, false)).
  { intros x [-> | [-> | ->]]; reflexivity. }
  rewrite !parseuri_by_transport. unfold parse_as.
  cbn [uri_scheme with_scheme uri_path]. rewrite (Hk sch H), (Hk sch' H').
  split; [|reflexivity]. cbv zeta.
  destruct (parse_volume_options_failure_keeps
              (set_transport gconf (Some "tcp"%string)) (uri_path uri))
    as (_ & _ & Ht).
  destruct (fst (parse_volume_options _ _) <? 0); [exact Ht|].
  destruct (parseuri_query_keeps qpp
              (snd (parse_volume_options
                      (set_transport gconf (Some "tcp"%string))
                      (uri_path uri)))
              (with_scheme sch uri) false) as (_ & _ & _ & Hq & _).
  rewrite Hq. exact Ht.
Qed.

Lemma parseuri_default_transport_is_tcp_witness :
  transport (snd (qemu_gluster_parseuri
                    (parse_as (with_scheme None tcp_example_uri))
                    (query_as []) gconf_zero None)) = Some "tcp"%string /\
  qemu_gluster_parseuri (parse_as (with_scheme None tcp_example_uri))
    (query_as []) gconf_zero None
  = qemu_gluster_parseuri
      (parse_as (with_scheme (Some "gluster"%string) tcp_example_uri))
      (query_as []) gconf_zero None.
Proof.
  apply (parseuri_default_transport_is_tcp (query_as []) gconf_zero None
           tcp_example_uri None (Some "gluster"%string)).
  - left. reflexivity.
  - right. left. reflexivity.
Defined.

(** ** Bootstrap *)

Section BootstrapProperties.

Variable uri_parse : option string -> option URI.
Variable query_params_parse : option string -> QueryParams.

Abbreviation parseuri := (qemu_gluster_parseuri uri_parse query_params_parse).
Abbreviation init := (qemu_gluster_init uri_parse query_params_parse).
Abbreviation failure := (init_failure uri_parse query_params_parse).

(** What the accepted descriptor holds, by the kind of the scheme. *)
Lemma parseuri_accepted_fields gconf filename :
  fst (parseuri gconf filename) = 0 ->
  exists uri tr is_unix,
    uri_parse filename = Some uri /\
    known_transport (uri_scheme uri) = Some (tr, is_unix) /\
    transport (snd (parseuri gconf filename)) = Some tr /\
    (is_unix = true ->
     port (snd (parseuri gconf filename)) = port gconf /\
     query_params_parse (uri_query uri)
     = [{| qp_name := "socket";
           qp_value := server (snd (parseuri gconf filename)) |}]) /\
    (is_unix = false ->
     port (snd (parseuri gconf filename)) = uri_port uri /\
     server (snd (parseuri gconf filename)) = host_or_localhost uri).
Proof.
  rewrite parseuri_by_transport.
  destruct (uri_parse filename) as [uri|]; [|discriminate].
  destruct (known_transport (uri_scheme uri)) as [[tr is_unix]|] eqn:Hk;
    [|discriminate].
  cbv zeta.
  pose proof (parse_volume_options_status
                (set_transport gconf (Some tr)) (uri_path uri)) as Hst.
  destruct (parse_volume_options_failure_keeps
              (set_transport gconf (Some tr)) (uri_path uri))
    as (_ & Hport & Htr).
  destruct (parse_volume_options (set_transport gconf (Some tr))
              (uri_path uri)) as [ret g].
  cbn [fst snd] in *. destruct Hst as [-> | ->]; [|discriminate].
  change (0 <? 0) with false. cbv iota. intros Hq.
  exists uri, tr, is_unix. split; [reflexivity|]. split; [exact Hk|].
  destruct (parseuri_query_keeps query_params_parse g uri is_unix)
    as (_ & _ & _ & Ht & _).
  split; [rewrite Ht; exact Htr|].
  revert Hq. unfold parseuri_query.
  destruct (qp_n_cases (query_params_parse (uri_query uri)))
    as [(Hl & Hn) | [(p & Hl & Hn) | (p & p' & rest & Hl & Hn)]].
  - rewrite Hn, Hl. destruct is_unix; cbn; [discriminate|].
    intros _. split; [discriminate|]. intros _. split; [reflexivity|].
    unfold host_or_localhost. destruct (uri_server uri); reflexivity.
  - rewrite Hn, Hl. destruct is_unix; cbn -[streq]; [|discriminate].
    destruct (uri_server uri); cbn -[streq]; [discriminate|].
    destruct (uri_port uri =? 0); cbn -[streq]; [|discriminate].
    destruct (streq (qp_name p) "socket") eqn:Hname; cbn -[streq];
      [|discriminate].
    intros _. apply String.eqb_eq in Hname. destruct p as [nm v].
    cbn in Hname. subst nm. cbn. split; [|discriminate].
    intros _. split; [exact Hport|reflexivity].
  - apply Z.ltb_lt in Hn. rewrite Hn. cbn. discriminate.
Qed.

(** [X4] Bootstrap returns a volume handle exactly when none of its five
    steps fails; the handle is new and live, the file handles and the
    caller's error are left as they were, and the library was called four
    times: [glfs_new], [glfs_set_volfile_server], [glfs_set_logging] to
    ["-"] at level 4, [glfs_init]. *)
Theorem bootstrap_handle_iff_no_failure gconf filename w :
  let r := init gconf filename w in
  ((failure gconf filename w = None) <-> (fst (fst r) <> None)) /\
  (forall h, fst (fst r) = Some h ->
     (h ∉ volumes w) /\ (h ∉ files w) /\
     volumes (snd r) = {[h]} ∪ volumes w /\ files (snd r) = files w /\
     err (snd r) = err w /\
     new_events w (snd r) = init_events (snd (fst r)) h).
Proof.
  intros r. destruct (failure gconf filename w) as [st|] eqn:Hf.
  - destruct (init_failed uri_parse query_params_parse gconf filename w st
                Hf) as (Hg & _). fold r in Hg.
    split; [split; [discriminate|congruence]|]. intros h Hh. congruence.
  - pose proof (init_success uri_parse query_params_parse gconf filename w
                  Hf) as Hi. cbv zeta in Hi. fold r in Hi.
    rewrite Hi. cbn [fst snd]. split; [split; [discriminate|reflexivity]|].
    intros h [= <-]. cbn.
    split; [apply fresh_not_volume|].
    split; [pose proof (is_fresh (volumes w ∪ files w)) as H;
            rewrite elem_of_union in H; tauto|].
    repeat split. apply new_events_app. reflexivity.
Qed.

(** [X5] A failed bootstrap tells the caller why in two cases only: a
    usage message when the URI is rejected (with [errno] set to [EINVAL]
    and the library never called), and a connection message carrying the
    error number [glfs_init] left when the connection fails.  A failure
    of [glfs_new], [glfs_set_volfile_server] or [glfs_set_logging] leaves
    the caller's error as it was. *)
Theorem bootstrap_failure_messages gconf filename w st :
  failure gconf filename w = Some st ->
  let r := init gconf filename w in
  let gc := snd (parseuri gconf filename) in
  match st with
  | Step_parseuri =>
      err (snd r) = Some Usage_error /\ errno (snd r) = EINVAL /\
      new_events w (snd r) = [] /\ replies (snd r) = replies w
  | Step_init =>
      err (snd r)
      = Some (Connection_failed (errno_after 4 w) (server gc) (port gc)
                (volname gc) (image gc) (transport gc)) /\
      errno (snd r) = errno_after 4 w
  | _ => err (snd r) = err w
  end.
Proof.
  intros Hf r gc.
  destruct (init_failed uri_parse query_params_parse gconf filename w st Hf)
    as (_ & _ & _ & _ & _ & He & Hr & Herr & Hev).
  fold r in He, Hr, Herr, Hev. destruct st; auto.
Qed.

(** [X6] Once the URI is accepted and [glfs_new] has given a handle, the
    second call of bootstrap is [glfs_set_volfile_server] with the
    descriptor's transport; for the UNIX scheme the host is the value of
    the [socket] parameter and the port is the one the descriptor had
    before (0 for the descriptors open and create make), for the other
    schemes the host is the authority's or [localhost] and the port is the
    authority's. *)
Theorem bootstrap_volfile_server gconf filename w :
  fst (parseuri gconf filename) = 0 ->
  o_ret (replies w 0%nat) = 0 ->
  exists uri tr is_unix host prt,
    uri_parse filename = Some uri /\
    known_transport (uri_scheme uri) = Some (tr, is_unix) /\
    nth_error (new_events w (snd (init gconf filename w))) 1
    = Some (Ev_set_volfile_server (fresh (volumes w ∪ files w)) (Some tr)
              host prt) /\
    (is_unix = true ->
     prt = port gconf /\
     query_params_parse (uri_query uri)
     = [{| qp_name := "socket"; qp_value := host |}]) /\
    (is_unix = false ->
     prt = uri_port uri /\ host = host_or_localhost uri).
Proof.
  intros Hp Hnew.
  destruct (parseuri_accepted_fields gconf filename Hp)
    as (uri & tr & is_unix & Hu & Hk & Htr & Hunix & Hnet).
  exists uri, tr, is_unix, (server (snd (parseuri gconf filename))),
    (port (snd (parseuri gconf filename))).
  split; [exact Hu|]. split; [exact Hk|]. split; [|split; assumption].
  rewrite <- Htr.
  destruct (failure gconf filename w) as [st|] eqn:Hf.
  - destruct (init_failed uri_parse query_params_parse gconf filename w st
                Hf) as (_ & _ & _ & _ & _ & _ & _ & _ & Hev).
    rewrite Hev. unfold init_failure in Hf. rewrite Hp, Hnew in Hf.
    change (0 <? 0) with false in Hf. change (0 =? 0) with true in Hf.
    cbn [negb] in Hf.
    destruct st; try reflexivity;
      repeat match type of Hf with
             | context [if ?b then _ else _] => destruct b
             end; discriminate.
  - pose proof (init_success uri_parse query_params_parse gconf filename w
                  Hf) as Hi. cbv zeta in Hi. rewrite Hi. cbn [snd].
    erewrite new_events_app; [|reflexivity]. reflexivity.
Qed.

End BootstrapProperties.

Lemma bootstrap_failure_messages_witness :
  err (snd (qemu_gluster_init (parse_as tcp_example_uri) (query_as [])
              gconf_zero tcp_example_filename refused_connection))
  = Some (Connection_failed 111 (Some "1.2.3.4"%string) 24007
            (Some "testvol"%string) (Some "dir/a.img"%string)
            (Some "tcp"%string)).
Proof.
  exact (proj1 (bootstrap_failure_messages (parse_as tcp_example_uri)
                  (query_as []) gconf_zero tcp_example_filename
                  refused_connection Step_init eq_refl)).
Defined.


Lemma bootstrap_volfile_server_witness :
  exists uri tr is_unix host prt,
    parse_as unix_example_uri None = Some uri /\
    known_transport (uri_scheme uri) = Some (tr, is_unix) /\
    nth_error
      (new_events (world0 (script []))
         (snd (qemu_gluster_init (parse_as unix_example_uri)
                 (query_as unix_example_query) gconf_zero None
                 (world0 (script []))))) 1
    = Some (Ev_set_volfile_server
              (fresh (volumes (world0 (script []))
                      ∪ files (world0 (script []))))
              (Some tr) host prt) /\
    (is_unix = true ->
     prt = port gconf_zero /\
     query_as unix_example_query (uri_query uri)
     = [{| qp_name := "socket"; qp_value := host |}]) /\
    (is_unix = false ->
     prt = uri_port uri /\ host = host_or_localhost uri).
Proof.
  apply (bootstrap_volfile_server (parse_as unix_example_uri)
           (query_as unix_example_query) gconf_zero None
           (world0 (script []))); reflexivity.
Defined.

(** ** Open and close *)

Lemma land_pow2 (x k : Z) :
  0 <= k -> (Z.land x (2 ^ k) =? 0) = negb (Z.testbit x k).
Proof.
  intros Hk.
  assert (H : Z.land x (2 ^ k) = if Z.testbit x k then 2 ^ k else 0).
  { apply Z.bits_inj'. intros n Hn. rewrite Z.land_spec.
    destruct (Z.eq_dec n k) as [-> | Hne].
    - rewrite Z.pow2_bits_true by lia. rewrite andb_true_r.
      destruct (Z.testbit x k);
        [rewrite Z.pow2_bits_true by lia | rewrite Z.bits_0]; reflexivity.
    - rewrite Z.pow2_bits_false by lia. rewrite andb_false_r.
      destruct (Z.testbit x k);
        [rewrite Z.pow2_bits_false by lia | rewrite Z.bits_0]; reflexivity. }
  rewrite H. destruct (Z.testbit x k); [|reflexivity].
  apply Z.eqb_neq. pose proof (Z.pow_pos_nonneg 2 k). lia.
Qed.

Lemma open_flags_by_bits (bdrv_flags : Z) :
  (let open_flags := O_BINARY in
   let open_flags :=
     if negb (Z.land bdrv_flags BDRV_O_RDWR =? 0)
     then Z.lor open_flags O_RDWR
     else Z.lor open_flags O_RDONLY in
   if negb (Z.land bdrv_flags BDRV_O_NOCACHE =? 0)
   then Z.lor open_flags O_DIRECT
   else open_flags)
  = requested_open_flags bdrv_flags.
Proof.
  unfold requested_open_flags, BDRV_O_RDWR, BDRV_O_NOCACHE. cbv zeta.
  pose proof (land_pow2 bdrv_flags 1 ltac:(lia)) as H1.
  pose proof (land_pow2 bdrv_flags 5 ltac:(lia)) as H5.
  change (2 ^ 1) with 2 in H1. change (2 ^ 5) with 32 in H5.
  rewrite H1, H5, !negb_involutive.
  destruct (Z.testbit bdrv_flags 1), (Z.testbit bdrv_flags 5); reflexivity.
Qed.

Lemma close_effect (s : BDRVGlusterState) (w : World) :
  let r := qemu_gluster_close s w in
  fst r = set_fd s None /\
  volumes (snd r) = match glfs s with
                    | Some g => volumes w ∖ {[g]}
                    | None => volumes w
                    end /\
  files (snd r) = match fd s with
                  | Some f => files w ∖ {[f]}
                  | None => files w
                  end /\
  new_events w (snd r)
  = match fd s with Some f => [Ev_close f] | None => [] end
    ++ [match glfs s with Some g => Ev_fini g | None => Ev_fini_null end] /\
  heap (snd r) = heap w /\ err (snd r) = err w.
Proof.
  unfold qemu_gluster_close, glfs_fini_null. run_driver.
  destruct s as [[g|] [f|]]; cbn; repeat split;
    apply new_events_app; cbn; rewrite <- ?app_assoc, ?app_nil_r;
    reflexivity.
Qed.

Section OpenProperties.

Variable uri_parse : option string -> option URI.
Variable query_params_parse : option string -> QueryParams.
Variable QDict : Type.
Variable qemu_opts_absorb_qdict : QDict -> option Error.
Variable qemu_opt_get : QDict -> string -> option string.

Abbreviation gopen :=
  (qemu_gluster_open uri_parse query_params_parse QDict
     qemu_opts_absorb_qdict qemu_opt_get).
Abbreviation bootstrap_failure :=
  (init_failure uri_parse query_params_parse gconf_zero).
Abbreviation descriptor filename :=
  (snd (qemu_gluster_parseuri uri_parse query_params_parse gconf_zero
          filename)).

(** Open after a bootstrap that went through, by the answer of
    [glfs_open] and the [errno] it leaves. *)
Lemma open_after_bootstrap (s : BDRVGlusterState) (options : QDict)
    (bdrv_flags : Z) (w : World) :
  qemu_opts_absorb_qdict options = None ->
  bootstrap_failure (qemu_opt_get options "filename"%string) w = None ->
  let filename := qemu_opt_get options "filename"%string in
  let gc := descriptor filename in
  let g := fresh (volumes w ∪ files w) in
  let f := fresh (({[g]} ∪ volumes w) ∪ files w) in
  let r := gopen s options bdrv_flags w in
  let opened := o_ret (replies w 4%nat) =? 0 in
  let cleaned := negb opened && negb (errno_after 5 w =? 0) in
  fst r = (if opened then 0 else - errno_after 5 w,
           {| glfs := Some g; fd := if opened then Some f else None |}) /\
  volumes (snd r)
  = (if cleaned then volumes w else {[g]} ∪ volumes w) /\
  files (snd r) = (if opened then {[f]} ∪ files w else files w) /\
  errno (snd r)
  = (if cleaned then errno_after 6 w else errno_after 5 w) /\
  replies (snd r) = later_replies (if cleaned then 6 else 5) w /\
  err (snd r) = err w /\
  new_events w (snd r)
  = init_events gc g
    ++ [Ev_open g (image gc) (requested_open_flags bdrv_flags)
          (if opened then Some f else None)]
    ++ (if cleaned then [Ev_fini g] else []).
Proof.
  intros Habs Hboot filename gc g f r opened cleaned.
  assert (Hr : r = gopen s options bdrv_flags w) by reflexivity.
  clearbody r.
  pose proof (init_success uri_parse query_params_parse gconf_zero filename
                w Hboot) as Hinit. cbv zeta in Hinit.
  fold g gc in Hinit.
  pose proof (add_remove _ _ (fresh_not_volume w)) as Hvol. fold g in Hvol.
  pose proof (open_flags_by_bits bdrv_flags) as Hflags. cbv zeta in Hflags.
  unfold qemu_gluster_open in Hr. rewrite Habs in Hr. fold filename in Hr.
  unfold mbind at 1 in Hr. rewrite Hinit in Hr. rewrite Hflags in Hr.
  unfold qemu_gluster_open_out in Hr. run_driver_in Hr.
  unfold later_replies in Hr. cbn in Hr.
  subst opened cleaned.
  destruct (o_ret (replies w 4%nat) =? 0); cbn in Hr |- *.
  - subst r. cbn. repeat split.
    apply new_events_app. cbn. rewrite <- !app_assoc. reflexivity.
  - change (errno_after 5 w)
      with (match o_errno (replies w 4%nat) with
            | Some e => e
            | None => errno_after 4 w
            end) in *.
    cbn [errno_after] in *.
    match type of Hr with
    | context [(- ?e =? 0)] =>
        replace (- e =? 0) with (e =? 0) in Hr
          by (destruct (Z.eqb_spec e 0), (Z.eqb_spec (- e) 0);
              try reflexivity; lia);
        destruct (e =? 0)
    end; cbn in Hr |- *.
    + subst r. cbn. repeat split.
      apply new_events_app. cbn. rewrite <- !app_assoc. reflexivity.
    + rewrite Hvol in Hr. subst r. cbn. repeat split.
      apply new_events_app. cbn. rewrite <- !app_assoc. reflexivity.
Qed.

(** [X7] After a bootstrap that went through, the fifth library call of
    open is [glfs_open] on the new volume handle and the descriptor's
    image path, with flags made of two bits only: bit 1 ([O_RDWR]) is set
    exactly when [BDRV_O_RDWR] is requested, bit 14 ([O_DIRECT]) exactly
    when [BDRV_O_NOCACHE] is; every other bit of the request is
    ignored. *)
Theorem open_flags_follow_request (s : BDRVGlusterState) (options : QDict)
    (bdrv_flags : Z) (w : World) :
  qemu_opts_absorb_qdict options = None ->
  bootstrap_failure (qemu_opt_get options "filename"%string) w = None ->
  exists fl res,
    nth_error (new_events w (snd (gopen s options bdrv_flags w))) 4
    = Some (Ev_open (fresh (volumes w ∪ files w))
              (image (descriptor (qemu_opt_get options "filename"%string)))
              fl res) /\
    forall n, 0 <= n ->
      Z.testbit fl n
      = (n =? 1) && Z.testbit bdrv_flags 1
        || (n =? 14) && Z.testbit bdrv_flags 5.
Proof.
  intros Habs Hboot.
  destruct (open_after_bootstrap s options bdrv_flags w Habs Hboot)
    as (_ & _ & _ & _ & _ & _ & Hev).
  rewrite Hev. eexists _, _. split; [reflexivity|].
  intros n Hn. unfold requested_open_flags, O_RDWR, O_RDONLY, O_DIRECT.
  rewrite Z.lor_spec.
  change 2 with (2 ^ 1). change 16384 with (2 ^ 14).
  destruct (Z.testbit bdrv_flags 1), (Z.testbit bdrv_flags 5);
    rewrite ?Z.pow2_bits_eqb, ?Z.bits_0 by lia;
    rewrite ?(Z.eqb_sym 1 n), ?(Z.eqb_sym 14 n);
    rewrite ?andb_true_r, ?andb_false_r, ?orb_false_r; reflexivity.
Qed.

(** [X8] Open followed by close gives back what open took: when open
    succeeds, closing the instance it filled closes the file handle, then
    finalizes the volume handle, and the live handles are again the ones
    from before the open; the instance's file pointer is [NULL]. *)
Theorem open_then_close_releases_all (s : BDRVGlusterState)
    (options : QDict) (bdrv_flags : Z) (w : World) :
  qemu_opts_absorb_qdict options = None ->
  bootstrap_failure (qemu_opt_get options "filename"%string) w = None ->
  o_ret (replies w 4%nat) = 0 ->
  let r := gopen s options bdrv_flags w in
  let c := qemu_gluster_close (snd (fst r)) (snd r) in
  let g := fresh (volumes w ∪ files w) in
  let f := fresh (({[g]} ∪ volumes w) ∪ files w) in
  fst (fst r) = 0 /\
  snd (fst r) = {| glfs := Some g; fd := Some f |} /\
  new_events (snd r) (snd c) = [Ev_close f; Ev_fini g] /\
  volumes (snd c) = volumes w /\ files (snd c) = files w /\
  fd (fst c) = None.
Proof.
  intros Habs Hboot Hopen r c g f.
  destruct (open_after_bootstrap s options bdrv_flags w Habs Hboot)
    as (Hres & Hvol & Hfiles & _).
  fold r g f in Hres, Hvol, Hfiles.
  apply Z.eqb_eq in Hopen. rewrite Hopen in Hres, Hvol, Hfiles.
  cbn [negb andb] in Hvol.
  destruct (close_effect (snd (fst r)) (snd r))
    as (Hs & Hv & Hf & Hev & _).
  fold c in Hs, Hv, Hf, Hev. rewrite Hres in Hs, Hv, Hf, Hev |- *.
  cbn [fst snd glfs fd] in *.
  split; [reflexivity|]. split; [reflexivity|]. split; [exact Hev|].
  rewrite Hv, Hf, Hs, Hvol, Hfiles.
  split; [apply add_remove, fresh_not_volume|].
  split; [|reflexivity].
  apply add_remove. subst f.
  pose proof (is_fresh (({[g]} ∪ volumes w) ∪ files w)) as H.
  rewrite elem_of_union in H. tauto.
Qed.

(** [X9] When the options are not accepted, open sets the caller's error
    to the one the option machinery reported, returns [-EINVAL] and never
    starts a bootstrap: the only library calls are the release of
    whatever handles the instance held, none for a zeroed instance. *)
Theorem open_rejected_options (s : BDRVGlusterState) (options : QDict)
    (bdrv_flags : Z) (w : World) (local_err : Error) :
  qemu_opts_absorb_qdict options = Some local_err ->
  let r := gopen s options bdrv_flags w in
  fst r = (- EINVAL, s) /\
  err (snd r) = Some local_err /\
  new_events w (snd r)
  = match fd s with Some f => [Ev_close f] | None => [] end
    ++ match glfs s with Some g => [Ev_fini g] | None => [] end /\
  (s = {| glfs := None; fd := None |} ->
   snd r = with_err (Some local_err) w).
Proof.
  intros Habs r. subst r. unfold qemu_gluster_open. rewrite Habs.
  unfold qemu_gluster_open_out. run_driver.
  change (- EINVAL =? 0) with false. cbv iota.
  destruct s as [[g|] [f|]]; cbn; repeat split; try discriminate;
    apply new_events_app; cbn; rewrite <- ?app_assoc, ?app_nil_r;
    reflexivity.
Qed.

(** [X10] When [glfs_open] fails and leaves [errno] at 0, open takes the
    status [-errno], which is 0, for success: it returns 0 with the file
    pointer [NULL], skips the cleanup and keeps the volume handle live in
    the instance. *)
Theorem open_status_is_minus_errno (s : BDRVGlusterState) (options : QDict)
    (bdrv_flags : Z) (w : World) :
  qemu_opts_absorb_qdict options = None ->
  bootstrap_failure (qemu_opt_get options "filename"%string) w = None ->
  o_ret (replies w 4%nat) <> 0 ->
  let r := gopen s options bdrv_flags w in
  let g := fresh (volumes w ∪ files w) in
  fst (fst r) = - errno_after 5 w /\
  snd (fst r) = {| glfs := Some g; fd := None |} /\
  (errno_after 5 w = 0 ->
   fst (fst r) = 0 /\ g ∈ volumes (snd r) /\
   ~ In (Ev_fini g) (new_events w (snd r))) /\
  (errno_after 5 w <> 0 ->
   (g ∉ volumes (snd r)) /\ last (new_events w (snd r)) = Some (Ev_fini g)).
Proof.
  intros Habs Hboot Hopen r g.
  destruct (open_after_bootstrap s options bdrv_flags w Habs Hboot)
    as (Hres & Hvol & _ & _ & _ & _ & Hev).
  fold r g in Hres, Hvol, Hev.
  apply Z.eqb_neq in Hopen. rewrite Hopen in Hres, Hvol, Hev.
  cbn [negb andb] in Hvol, Hev.
  rewrite Hres. cbn [fst snd]. split; [reflexivity|].
  split; [reflexivity|]. split.
  - intros H0. rewrite H0 in Hvol, Hev |- *. cbn in Hvol, Hev.
    split; [reflexivity|]. rewrite Hvol, Hev.
    split; [apply in_added|].
    unfold init_events. cbn. intuition discriminate.
  - intros Hne. apply Z.eqb_neq in Hne. rewrite Hne in Hvol, Hev.
    cbn in Hvol, Hev. rewrite Hvol, Hev.
    split; [apply fresh_not_volume|]. reflexivity.
Qed.

End OpenProperties.

(** [X11] Close sets the file pointer to [NULL] and leaves neither handle
    of the instance live, whatever the library answers; the file is
    closed before the volume is finalized; the volume pointer stays in
    the instance, and the other live handles are not touched. *)
Theorem close_releases_instance (s : BDRVGlusterState) (w : World) :
  let r := qemu_gluster_close s w in
  fd (fst r) = None /\ glfs (fst r) = glfs s /\
  (forall f, fd s = Some f -> f ∉ files (snd r)) /\
  (forall g, glfs s = Some g -> g ∉ volumes (snd r)) /\
  (forall f g, fd s = Some f -> glfs s = Some g ->
               new_events w (snd r) = [Ev_close f; Ev_fini g]) /\
  (forall h, fd s <> Some h -> (h ∈ files (snd r) <-> h ∈ files w)) /\
  (forall h, glfs s <> Some h -> (h ∈ volumes (snd r) <-> h ∈ volumes w)).
Proof.
  intros r. destruct (close_effect s w) as (Hs & Hv & Hf & Hev & _).
  fold r in Hs, Hv, Hf, Hev. rewrite Hs, Hv, Hf, Hev.
  destruct s as [[g|] [f|]]; cbn; repeat split;
    try (intros; discriminate); try tauto;
    try (intros x [= <-]; apply not_in_removed);
    try (intros x y [= <-] [= <-]; reflexivity);
    try (intros x y [= <-]; discriminate);
    try (rewrite elem_of_difference, elem_of_singleton; tauto);
    try (rewrite elem_of_difference, elem_of_singleton;
         intros Hin; split; [exact Hin | congruence]).
Qed.

Lemma open_flags_follow_request_witness :
  exists fl res,
    nth_error (new_events (world0 (script []))
                 (snd (example_open (world0 (script []))))) 4
    = Some (Ev_open (fresh (volumes (world0 (script []))
                            ∪ files (world0 (script []))))
              (image (snd (qemu_gluster_parseuri (parse_as tcp_example_uri)
                             (query_as []) gconf_zero tcp_example_filename)))
              fl res) /\
    forall n, 0 <= n ->
      Z.testbit fl n
      = (n =? 1) && Z.testbit BDRV_O_RDWR 1
        || (n =? 14) && Z.testbit BDRV_O_RDWR 5.
Proof.
  apply (open_flags_follow_request (parse_as tcp_example_uri) (query_as [])
           unit (fun _ => None) (fun _ _ => tcp_example_filename)
           {| glfs := None; fd := None |} tt BDRV_O_RDWR
           (world0 (script []))); reflexivity.
Defined.

Lemma open_then_close_releases_all_witness :
  fst (fst (example_open (world0 (script [])))) = 0 /\
  volumes (snd (qemu_gluster_close
                  (snd (fst (example_open (world0 (script [])))))
                  (snd (example_open (world0 (script []))))))
  = volumes (world0 (script [])).
Proof.
  destruct (open_then_close_releases_all (parse_as tcp_example_uri)
              (query_as []) unit (fun _ => None)
              (fun _ _ => tcp_example_filename)
              {| glfs := None; fd := None |} tt BDRV_O_RDWR
              (world0 (script [])) eq_refl eq_refl eq_refl)
    as (H0 & _ & _ & Hv & _).
  split; [exact H0 | exact Hv].
Defined.

Lemma open_rejected_options_witness :
  fst (qemu_gluster_open (parse_as tcp_example_uri) (query_as []) unit
         (fun _ => Some (Options_error "filename"))
         (fun _ _ => tcp_example_filename)
         {| glfs := None; fd := None |} tt 0 (world0 (script [])))
  = (- EINVAL, {| glfs := None; fd := None |}).
Proof.
  exact (proj1 (open_rejected_options (parse_as tcp_example_uri)
                  (query_as []) unit
                  (fun _ => Some (Options_error "filename"))
                  (fun _ _ => tcp_example_filename)
                  {| glfs := None; fd := None |} tt 0 (world0 (script []))
                  (Options_error "filename") eq_refl)).
Defined.


Lemma open_status_is_minus_errno_witness :
  fst (fst (example_open open_fails_silently)) = 0 /\
  snd (fst (example_open open_fails_silently))
  = {| glfs := Some (fresh (volumes open_fails_silently
                            ∪ files open_fails_silently));
       fd := None |}.
Proof.
  destruct (open_status_is_minus_errno (parse_as tcp_example_uri)
              (query_as []) unit (fun _ => None)
              (fun _ _ => tcp_example_filename)
              {| glfs := None; fd := None |} tt BDRV_O_RDWR
              open_fails_silently eq_refl eq_refl)
    as (_ & Hs & H0 & _).
  - cbn. lia.
  - split; [apply (H0 eq_refl) | exact Hs].
Defined.

(** ** Create: status and preallocation *)

Section CreateFurther.

Variable uri_parse : option string -> option URI.
Variable query_params_parse : option string -> QueryParams.
Variable zf : bool.

Abbreviation create :=
  (qemu_gluster_create uri_parse query_params_parse zf).
Abbreviation scan := (create_options_loop zf).
Abbreviation boot_failure :=
  (init_failure uri_parse query_params_parse gconf_zero).

Lemma failed_call_errno (w : World) (n : nat) :
  errno_convention w ->
  negb (o_ret (replies w n) =? 0) = true ->
  0 < errno_after (S n) w.
Proof.
  intros Hc H. apply negb_true_iff, Z.eqb_neq in H.
  apply errno_after_failure; assumption.
Qed.

Lemma create_file_status_sign (p : Z) (w : World) :
  errno_convention w ->
  create_file_status zf p w <= 0 /\
  (create_file_status zf p w = 0 <->
   creat_failed w = false /\ ftruncate_failed w = false /\
   zerofill_failed zf p w = false /\ close_failed zf p w = false).
Proof.
  intros Hc. unfold create_file_status.
  destruct (creat_failed w) eqn:Ec.
  { pose proof (failed_call_errno w 4 Hc Ec).
    split; [lia|]. split; [lia|]. intros (H' & _). discriminate. }
  destruct (close_failed zf p w) eqn:Ex.
  { unfold close_failed in Ex.
    pose proof (failed_call_errno w _ Hc Ex).
    split; [lia|]. split; [lia|]. intros (_ & _ & _ & H'). discriminate. }
  destruct (ftruncate_failed w) eqn:Et.
  { pose proof (failed_call_errno w 5 Hc Et).
    split; [lia|]. split; [lia|]. intros (_ & H' & _). discriminate. }
  destruct (zerofill_failed zf p w) eqn:Ez.
  { unfold zerofill_failed in Ez. apply andb_true_iff in Ez as [_ Ez].
    pose proof (failed_call_errno w 6 Hc Ez).
    split; [lia|]. split; [lia|]. intros (_ & _ & H' & _). discriminate. }
  split; [lia|]. split; auto.
Qed.

Lemma scan_keeps_prealloc options :
  (forall o, In o options -> opt_name o <> BLOCK_OPT_PREALLOC) ->
  forall ts p ts' p', scan options ts p = inr (ts', p') -> p' = p.
Proof.
  induction options as [|o options IH]; intros Hno ts p ts' p' Hscan.
  - cbn in Hscan. congruence.
  - assert (Hrest : forall o', In o' options ->
                               opt_name o' <> BLOCK_OPT_PREALLOC).
    { intros o' Hin. apply Hno. right. exact Hin. }
    specialize (IH Hrest). cbn [create_options_loop] in Hscan.
    destruct (streq (opt_name o) BLOCK_OPT_SIZE); [eauto|].
    destruct (streq (opt_name o) BLOCK_OPT_PREALLOC) eqn:Hname; [|eauto].
    apply String.eqb_eq in Hname. elim (Hno o (or_introl eq_refl) Hname).
Qed.

Lemma scan_reads_prealloc pre o post :
  opt_name o = BLOCK_OPT_PREALLOC ->
  (forall o', In o' post -> opt_name o' <> BLOCK_OPT_PREALLOC) ->
  forall ts p ts' p',
    scan (pre ++ o :: post) ts p = inr (ts', p') ->
    (value_s o = Some "full"%string /\ zf = true /\ p' = 1) \/
    ((value_s o = None \/ value_s o = Some "off"%string) /\ p' = 0).
Proof.
  intros Hname Hpost. induction pre as [|o' pre IH]; intros ts p ts' p'.
  - rewrite app_nil_l. cbn [create_options_loop]. rewrite Hname.
    change (streq BLOCK_OPT_PREALLOC BLOCK_OPT_SIZE) with false.
    change (streq BLOCK_OPT_PREALLOC BLOCK_OPT_PREALLOC) with true.
    cbv iota. destruct (value_s o) as [m|].
    2:{ intros Hs. right. split; [auto|].
        apply (scan_keeps_prealloc post Hpost _ _ _ _ Hs). }
    destruct (streq m "off") eqn:Eoff.
    { apply String.eqb_eq in Eoff. subst m. intros Hs. right.
      split; [auto|]. apply (scan_keeps_prealloc post Hpost _ _ _ _ Hs). }
    destruct (streq m "full") eqn:Efull; [|discriminate].
    apply String.eqb_eq in Efull. subst m.
    unfold gluster_supports_zerofill. cbn [andb]. intros Hs.
    assert (H : zf = true /\ scan post ts 1 = inr (ts', p')).
    { revert Hs. generalize (scan post ts 1). intros x.
      case zf; [auto | discriminate]. }
    destruct H as (Hzf & Hs'). left. split; [reflexivity|].
    split; [exact Hzf|].
    apply (scan_keeps_prealloc post Hpost _ _ _ _ Hs').
  - rewrite <- app_comm_cons. cbn [create_options_loop]. intros Hscan.
    repeat match type of Hscan with
           | context [if ?b then _ else _] => destruct b
           | context [match value_s ?x with _ => _ end] =>
               destruct (value_s x)
           end; try discriminate; eauto.
Qed.

Lemma failed_bootstrap_no_zerofill st gc g :
  forallb (fun ev => negb (is_zerofill ev)) (init_failure_events st gc g)
  = true.
Proof. destruct st; reflexivity. Qed.

(** [X12] With a library that keeps the convention of [errno], create
    returns 0 or a negative value, and 0 exactly when the bootstrap went
    through, the parameter scan accepted the parameters and none of
    [glfs_creat], [glfs_ftruncate], [glfs_zerofill] and [glfs_close]
    failed; the answer of [glfs_fini] plays no part. *)
Theorem create_succeeds_iff_every_step filename options w :
  errno_convention w ->
  let r := create filename options w in
  fst r <= 0 /\
  (fst r = 0 <->
   boot_failure filename w = None /\
   exists ts p, scan options 0 0 = inr (ts, p) /\
     creat_failed w = false /\ ftruncate_failed w = false /\
     zerofill_failed zf p w = false /\ close_failed zf p w = false).
Proof.
  intros Hc r.
  destruct (create_events uri_parse query_params_parse zf filename options w)
    as (_ & _ & Hpath).
  fold r in Hpath.
  destruct (boot_failure filename w) as [st|].
  { destruct Hpath as (Hret & _). rewrite Hret. unfold EINVAL.
    split; [lia|]. split; [lia|]. intros (H & _). discriminate. }
  destruct (scan options 0 0) as [mode|[ts p]].
  { destruct Hpath as (Hret & _). rewrite Hret. unfold EINVAL.
    split; [lia|]. split; [lia|]. intros (_ & ts & p & H & _).
    discriminate. }
  destruct Hpath as (Hret & _). rewrite Hret.
  destruct (create_file_status_sign p w Hc) as [H1 H2].
  split; [exact H1|]. rewrite H2. split.
  - intros H. split; [reflexivity|]. exists ts, p.
    split; [reflexivity | exact H].
  - intros (_ & ts' & p' & [= <- <-] & H). exact H.
Qed.

(** [X13] The last [preallocation] parameter decides.  When the scan goes
    through and that entry says [full], zero-fill is compiled in, the
    scan ends with preallocation 1 and, once the file is created and
    truncated, the seventh library call zero-fills it from offset 0;
    when the entry says anything else the scan ends with preallocation 0;
    and the library is not asked to zero-fill when the entry is not
    [full] or the truncation failed. *)
Theorem create_last_preallocation_decides filename pre o post w ts p :
  opt_name o = BLOCK_OPT_PREALLOC ->
  (forall o', In o' post -> opt_name o' <> BLOCK_OPT_PREALLOC) ->
  scan (pre ++ o :: post) 0 0 = inr (ts, p) ->
  let r := create filename (pre ++ o :: post) w in
  (value_s o = Some "full"%string ->
   zf = true /\ p = 1 /\
   (boot_failure filename w = None -> creat_failed w = false ->
    ftruncate_failed w = false ->
    exists f len,
      nth_error (new_events w (snd r)) 6 = Some (Ev_zerofill f 0 len))) /\
  (value_s o <> Some "full"%string -> p = 0) /\
  (value_s o <> Some "full"%string \/ ftruncate_failed w = true ->
   forallb (fun ev => negb (is_zerofill ev)) (new_events w (snd r))
   = true).
Proof.
  intros Hname Hpost Hs r.
  pose proof (scan_reads_prealloc pre o post Hname Hpost 0 0 ts p Hs)
    as Hp.
  destruct (create_events uri_parse query_params_parse zf filename
              (pre ++ o :: post) w) as (_ & _ & Hpath).
  fold r in Hpath. rewrite Hs in Hpath.
  split; [|split].
  - intros Hfull.
    destruct Hp as [(_ & Hzf & Hp) | ([Hv | Hv] & _)];
      [|congruence|congruence].
    split; [exact Hzf|]. split; [exact Hp|].
    intros Hb Hc Ht. rewrite Hb in Hpath. destruct Hpath as (_ & Hev).
    rewrite Hev. unfold create_file_events, zerofill_called.
    rewrite Hc, Ht, Hzf, Hp. cbn. eauto.
  - intros Hnot. destruct Hp as [(Hv & _) | (_ & Hp)]; [congruence|].
    exact Hp.
  - intros Hno.
    destruct (boot_failure filename w) as [st|].
    { destruct Hpath as (_ & Hev). rewrite Hev.
      apply failed_bootstrap_no_zerofill. }
    destruct Hpath as (_ & Hev). rewrite Hev.
    assert (Hz : zerofill_called zf p w = false).
    { unfold zerofill_called. destruct Hno as [Hnot | Ht].
      - destruct Hp as [(Hv & _) | (_ & ->)]; [congruence|].
        change (0 =? 0) with true. cbn [negb].
        rewrite andb_false_r. reflexivity.
      - rewrite Ht. reflexivity. }
    unfold create_file_events. rewrite Hz.
    destruct (creat_failed w); reflexivity.
Qed.

End CreateFurther.

(** [X14] In a build without [glfs_zerofill] no call of create asks the
    library to zero-fill, whatever the parameters and the library's
    answers. *)
Theorem create_unconfigured_never_zero_fills
    (uri_parse : option string -> option URI)
    (query_params_parse : option string -> QueryParams)
    (filename : option string) (options : list QEMUOptionParameter)
    (w : World) :
  forallb (fun ev => negb (is_zerofill ev))
    (new_events w
       (snd (qemu_gluster_create uri_parse query_params_parse false
               filename options w)))
  = true.
Proof.
  destruct (create_events uri_parse query_params_parse false filename
              options w) as (_ & _ & Hpath).
  destruct (init_failure _ _ _ _ _) as [st|].
  { destruct Hpath as (_ & Hev). rewrite Hev.
    apply failed_bootstrap_no_zerofill. }
  destruct (create_options_loop false options 0 0) as [mode|[ts p]].
  { destruct Hpath as (_ & _ & Hev). rewrite Hev. reflexivity. }
  destruct Hpath as (_ & Hev). rewrite Hev.
  unfold create_file_events, zerofill_called. rewrite andb_false_r.
  destruct (creat_failed w); reflexivity.
Qed.

Lemma create_succeeds_iff_every_step_witness :
  fst (example_create false [size_option 1048576] missing_image) <= 0 /\
  fst (example_create false [size_option 1048576] missing_image) <> 0.
Proof.
  unfold example_create.
  destruct (create_succeeds_iff_every_step (parse_as tcp_example_uri)
              (query_as []) false tcp_example_filename
              [size_option 1048576] missing_image missing_image_convention)
    as (Hle & Hiff).
  split; [exact Hle|]. intros H0. destruct Hiff as [Hfwd _].
  destruct (Hfwd H0) as (_ & ts & p & _ & Hc & _).
  assert (Hc' : creat_failed missing_image = true) by reflexivity.
  congruence.
Defined.

Lemma create_last_preallocation_decides_witness :
  exists f len,
    nth_error
      (new_events (world0 (script []))
         (snd (example_create true
                 [prealloc_option (Some "off"%string);
                  prealloc_option (Some "full"%string);
                  size_option 1048576]
                 (world0 (script []))))) 6
    = Some (Ev_zerofill f 0 len).
Proof.
  unfold example_create.
  destruct (create_last_preallocation_decides (parse_as tcp_example_uri)
              (query_as []) true tcp_example_filename
              [prealloc_option (Some "off"%string)]
              (prealloc_option (Some "full"%string))
              [size_option 1048576] (world0 (script [])) 2048 1
              eq_refl) as (H & _).
  - intros o' [<- | []]. discriminate.
  - reflexivity.
  - destruct (H eq_refl) as (_ & _ & Hev).
    apply Hev; reflexivity.
Defined.

(** ** The AIO bridge: the whole world *)

Lemma alter_present {A} (g : A -> A) (m : gmap handle A) (i : handle)
    (x : A) :
  m !! i = Some x -> alter g i m = <[i := g x]> m.
Proof.
  intros H. rewrite <- (insert_id m i x H) at 1. apply alter_insert_eq.
Qed.

(** The world after the callback. *)
Lemma gluster_finish_aiocb_world f b a w r :
  heap w !! a = Some r ->
  snd (gluster_finish_aiocb f b a w)
  = with_bhs (<[fresh (dom (bhs w)) := (a, true)]> (bhs w))
      (with_heap
         (<[a := {| acb_size := acb_size r;
                    acb_ret := classified b (acb_size r);
                    acb_bh := Some (fresh (dom (bhs w)));
                    acb_coroutine := acb_coroutine r |}]> (heap w)) w).
Proof.
  intros Hr. unfold gluster_finish_aiocb, mbind, load_size, classified.
  rewrite Hr.
  destruct ((b =? 0) || (b =? acb_size r)); [|destruct (b <? 0)];
    cbn; rewrite alter_insert_eq, (alter_present _ _ a r Hr),
           alter_insert_eq; reflexivity.
Qed.

(** One completion, result and world: the record is freed, the bottom
    half deleted, the rest of the world as it was. *)
Lemma complete_request_world self f b a w r :
  heap w !! a = Some r ->
  acb_coroutine r = self ->
  complete_request self (after_yield a) f b a w
  = (Some (classified b (acb_size r)), with_heap (delete a (heap w)) w).
Proof.
  intros Hr Hco. unfold complete_request, mbind.
  pose proof (gluster_finish_aiocb_world f b a w r Hr) as Hw.
  destruct (gluster_finish_aiocb f b a w) as [[] w1]. cbn [snd] in Hw.
  subst w1.
  unfold qemu_gluster_complete_aio, mbind, load_bh, load_coroutine,
    qemu_bh_delete, acb_store. cbn.
  rewrite !lookup_insert_eq. cbn.
  rewrite alter_insert_eq, lookup_insert_eq. cbn.
  unfold qemu_coroutine_enter. rewrite Hco.
  destruct (decide (Some self = Some self)) as [_|Hne]; [|congruence].
  unfold after_yield, mbind, load_ret, g_slice_free, mreturn. cbn.
  rewrite lookup_insert_eq. cbn.
  rewrite delete_insert_eq.
  rewrite (delete_insert_id (bhs w)) by apply not_elem_of_dom, is_fresh.
  reflexivity.
Qed.

Lemma sector_offset_exact (sn : Z) :
  0 <= sn -> sn * 512 <= INT64_MAX ->
  to_int64 (sectors_to_bytes sn) = sn * 512.
Proof.
  unfold INT64_MAX, sectors_to_bytes, to_uint64, BDRV_SECTOR_SIZE.
  intros H0 H1.
  rewrite (Z.mod_small sn) by lia.
  rewrite (Z.mod_small (sn * 512)) by lia.
  apply to_int64_small. lia.
Qed.

Lemma sector_length_exact (nb : Z) :
  0 <= nb <= INT_MAX -> sectors_to_bytes nb = nb * 512.
Proof.
  unfold INT_MAX, sectors_to_bytes, to_uint64, BDRV_SECTOR_SIZE.
  intros H.
  rewrite (Z.mod_small nb) by lia.
  apply Z.mod_small. lia.
Qed.

(** [X15] The callback writes the classified result and a new bottom half
    into the record it is given, and nothing else: the bottom half is a
    fresh one, scheduled, with the record as its argument; the record's
    size and coroutine, the other records and bottom halves stay as they
    are, and no library call is made nor [errno] touched. *)
Theorem callback_records_and_schedules f (b : Z) (a : handle) (w : World)
    (r : GlusterAIOCB) :
  heap w !! a = Some r ->
  let w' := snd (gluster_finish_aiocb f b a w) in
  let bh := fresh (dom (bhs w)) in
  bhs w !! bh = None /\
  heap w' = <[a := {| acb_size := acb_size r;
                      acb_ret := classified b (acb_size r);
                      acb_bh := Some bh;
                      acb_coroutine := acb_coroutine r |}]> (heap w) /\
  bhs w' = <[bh := (a, true)]> (bhs w) /\
  trace w' = trace w /\ errno w' = errno w /\ replies w' = replies w /\
  volumes w' = volumes w /\ files w' = files w.
Proof.
  intros Hr w' bh. subst w'.
  rewrite (gluster_finish_aiocb_world f b a w r Hr).
  split; [apply not_elem_of_dom, is_fresh|]. repeat split.
Qed.

(** [X16] An operation from its call to its return, whatever the library
    does: it returns a value, [-errno] when the submission is refused and
    the classified byte count otherwise; it hands the library one
    request; and it leaves the heap and the bottom halves as it found
    them, so neither a record nor a bottom half outlives it. *)
Theorem operation_returns_and_frees (self : handle) (s : BDRVGlusterState)
    (op : io_op) (delivered : Z) (w : World) :
  INT_MIN <= nb_sectors_of op <= INT_MAX ->
  let r := run_to_completion self s op delivered w in
  fst r = Some (if o_ret (replies w 0%nat) <? 0 then - errno_after 1 w
                else classified delivered (expected_size op)) /\
  heap (snd r) = heap w /\ bhs (snd r) = bhs w /\
  (exists data rec,
      new_events w (snd r) = [Ev_async (fd s) (request_of op) data rec]) /\
  replies (snd r) = later_replies 1 w.
Proof.
  intros Hnb r. subst r. unfold run_to_completion, mbind.
  rewrite (run_op_submit self s op w Hnb).
  destruct (o_ret (replies w 0%nat) <? 0).
  - cbn. repeat split. eexists _, _. apply new_events_app. reflexivity.
  - cbn [with_trace trace]. rewrite last_snoc.
    match goal with
    | |- context [complete_request _ _ _ _ ?a0 ?w1] =>
        assert (Hrec : heap w1 !! a0
                       = Some {| acb_size := expected_size op; acb_ret := 0;
                                 acb_bh := acb_bh (uninit w a0);
                                 acb_coroutine := self |})
          by (cbn; apply lookup_insert_eq);
        rewrite (complete_request_world self (fd s) delivered a0 w1 _ Hrec
                   eq_refl)
    end.
    cbn. rewrite delete_insert_id by apply fresh_heap.
    repeat split. eexists _, _. apply new_events_app. reflexivity.
Qed.

(** [X17] Two requests in flight complete independently: whichever of
    the two completions runs first, each coroutine gets the result
    classified against its own record, and the world afterwards is the
    same. *)
Theorem completions_commute (self1 self2 : handle) f1 f2 (b1 b2 : Z)
    (a1 a2 : handle) (w : World) (r1 r2 : GlusterAIOCB) :
  a1 <> a2 ->
  heap w !! a1 = Some r1 -> heap w !! a2 = Some r2 ->
  acb_coroutine r1 = self1 -> acb_coroutine r2 = self2 ->
  let c1 := complete_request self1 (after_yield a1) f1 b1 a1 in
  let c2 := complete_request self2 (after_yield a2) f2 b2 a2 in
  (x <- c1 ;; y <- c2 ;; mreturn (x, y)) w
  = (y <- c2 ;; x <- c1 ;; mreturn (x, y)) w /\
  fst ((x <- c1 ;; y <- c2 ;; mreturn (x, y)) w)
  = (Some (classified b1 (acb_size r1)),
     Some (classified b2 (acb_size r2))).
Proof.
  intros Hne H1 H2 Hco1 Hco2 c1 c2. subst c1 c2. unfold mbind, mreturn.
  rewrite (complete_request_world self1 f1 b1 a1 w r1 H1 Hco1).
  rewrite (complete_request_world self2 f2 b2 a2 w r2 H2 Hco2).
  assert (H2' : heap (with_heap (delete a1 (heap w)) w) !! a2 = Some r2).
  { cbn. rewrite lookup_delete_ne by exact Hne. exact H2. }
  assert (H1' : heap (with_heap (delete a2 (heap w)) w) !! a1 = Some r1).
  { cbn. rewrite lookup_delete_ne by congruence. exact H1. }
  rewrite (complete_request_world self2 f2 b2 a2 _ r2 H2' Hco2).
  rewrite (complete_request_world self1 f1 b1 a1 _ r1 H1' Hco1).
  cbn. split; [|reflexivity]. unfold with_heap. cbn.
  rewrite (delete_delete (heap w) a1 a2). reflexivity.
Qed.

(** [X18] For a sector number and a sector count that are not negative
    and whose byte offsets fit the library's types, the request handed to
    the library carries the offset [sector_num * 512] and, for discard
    and zero-fill, the length [nb_sectors * 512]; reads and writes pass
    the caller's vector and flags 0.  The record that goes with it has
    the fields the operation wrote, the expected size, result 0 and the
    running coroutine, whatever the allocator's memory held; its bottom
    half is what the memory held. *)
Theorem requests_are_in_bytes (self : handle) (s : BDRVGlusterState)
    (op : io_op) (w : World) :
  0 <= sector_num_of op -> sector_num_of op * 512 <= INT64_MAX ->
  0 <= nb_sectors_of op <= INT_MAX ->
  exists rec,
    new_events w (snd (run_op self s op w))
    = [Ev_async (fd s) (byte_request op) (fresh (dom (heap w))) (Some rec)]
    /\ acb_size rec = expected_size op /\ acb_ret rec = 0
    /\ acb_coroutine rec = self
    /\ acb_bh rec = acb_bh (uninit w (fresh (dom (heap w)))).
Proof.
  intros Hsn0 Hsn Hnb.
  assert (Hnb' : INT_MIN <= nb_sectors_of op <= INT_MAX)
    by (unfold INT_MIN; lia).
  assert (Hreq : request_of op = byte_request op).
  { destruct op as [sn nb q | sn nb q | | sn nb | sn nb];
      cbn [request_of byte_request sector_num_of nb_sectors_of] in *;
      rewrite ?(sector_offset_exact sn Hsn0 Hsn),
        ?(sectors_to_int64 nb Hnb'), ?(sector_length_exact nb Hnb);
      reflexivity. }
  rewrite (run_op_submit self s op w Hnb'). rewrite Hreq.
  eexists. split.
  - apply new_events_app.
    destruct (o_ret (replies w 0%nat) <? 0); reflexivity.
  - repeat split.
Qed.

Lemma two_in_flight_write :
  heap two_in_flight !! 1%positive
  = Some {| acb_size := 65536; acb_ret := 0; acb_bh := None;
            acb_coroutine := 7%positive |}.
Proof.
  unfold two_in_flight. cbn [heap with_heap].
  rewrite lookup_insert_ne by discriminate. apply lookup_singleton_eq.
Qed.

Lemma two_in_flight_flush :
  heap two_in_flight !! 2%positive
  = Some {| acb_size := 0; acb_ret := 0; acb_bh := None;
            acb_coroutine := 8%positive |}.
Proof. unfold two_in_flight. cbn [heap with_heap]. apply lookup_insert_eq. Qed.

Lemma callback_records_and_schedules_witness :
  trace (snd (gluster_finish_aiocb None 32768 1%positive write_in_flight))
  = trace write_in_flight /\
  errno (snd (gluster_finish_aiocb None 32768 1%positive write_in_flight))
  = errno write_in_flight.
Proof.
  destruct (callback_records_and_schedules None 32768 1%positive
              write_in_flight
              {| acb_size := 65536; acb_ret := 0; acb_bh := None;
                 acb_coroutine := 7%positive |})
    as (_ & _ & _ & Ht & He & _).
  - apply lookup_singleton_eq.
  - split; [exact Ht | exact He].
Defined.

Lemma operation_returns_and_frees_witness :
  fst (run_to_completion 7%positive
         {| glfs := Some 1%positive; fd := Some 2%positive |}
         (Op_writev 0 128 []) 65536 (world0 (script []))) = Some 0 /\
  heap (snd (run_to_completion 7%positive
               {| glfs := Some 1%positive; fd := Some 2%positive |}
               (Op_writev 0 128 []) 65536 (world0 (script []))))
  = heap (world0 (script [])).
Proof.
  destruct (operation_returns_and_frees 7%positive
              {| glfs := Some 1%positive; fd := Some 2%positive |}
              (Op_writev 0 128 []) 65536 (world0 (script [])))
    as (Hr & Hh & _).
  - unfold INT_MIN, INT_MAX. simpl. lia.
  - split; [exact Hr | exact Hh].
Defined.

Lemma completions_commute_witness :
  fst ((x <- complete_request 7%positive (after_yield 1%positive) None
              32768 1%positive ;;
        y <- complete_request 8%positive (after_yield 2%positive) None
              0 2%positive ;;
        mreturn (x, y)) two_in_flight)
  = (Some (- EIO), Some 0).
Proof.
  destruct (completions_commute 7%positive 8%positive None None 32768 0
              1%positive 2%positive two_in_flight _ _
              ltac:(discriminate) two_in_flight_write two_in_flight_flush
              eq_refl eq_refl) as (_ & H).
  exact H.
Defined.

Lemma requests_are_in_bytes_witness :
  exists rec,
    new_events (world0 (script []))
      (snd (run_op 7%positive
              {| glfs := Some 1%positive; fd := Some 2%positive |}
              (Op_discard 8 16) (world0 (script []))))
    = [Ev_async (Some 2%positive) (Aio_discard 4096 8192)
         (fresh (dom (heap (world0 (script []))))) (Some rec)]
    /\ acb_size rec = 0 /\ acb_ret rec = 0.
Proof.
  destruct (requests_are_in_bytes 7%positive
              {| glfs := Some 1%positive; fd := Some 2%positive |}
              (Op_discard 8 16) (world0 (script [])))
    as (rec & Hev & Hsize & Hret & _).
  - simpl. lia.
  - unfold INT64_MAX. simpl. lia.
  - unfold INT_MAX. simpl. lia.
  - exists rec. split; [exact Hev|]. split; [exact Hsize | exact Hret].
Defined.

(** ** The synchronous operations *)

Lemma to_int64_blocks (blocks : Z) :
  0 <= blocks < 2 ^ 54 -> to_int64 (blocks * 512) = blocks * 512.
Proof. intros H. apply to_int64_small. lia. Qed.

(** Truncate: one library call, on the instance's file. *)
Lemma truncate_effect (s : BDRVGlusterState) (offset : Z) (w : World) :
  let t := qemu_gluster_truncate s offset w in
  fst t = (if o_ret (replies w 0%nat) <? 0 then - errno_after 1 w else 0) /\
  new_events w (snd t)
  = [match fd s with
     | Some f => Ev_ftruncate f (to_int64 offset)
     | None => Ev_ftruncate_null (to_int64 offset)
     end] /\
  volumes (snd t) = volumes w /\ files (snd t) = files w /\
  heap (snd t) = heap w /\ replies (snd t) = later_replies 1 w /\
  errno (snd t) = errno_after 1 w.
Proof.
  unfold qemu_gluster_truncate, glfs_ftruncate_null. run_driver.
  destruct (fd s) as [f|]; cbn;
    destruct (o_ret (replies w 0%nat) <? 0); cbn; repeat split;
    apply new_events_app; cbn; rewrite ?app_nil_r; reflexivity.
Qed.

Section TableProperties.

Variable uri_parse : option string -> option URI.
Variable query_params_parse : option string -> QueryParams.
Variable CONFIG_GLUSTERFS_ZEROFILL : bool.
Variable CONFIG_GLUSTERFS_DISCARD : bool.
Variable QDict : Type.
Variable qemu_opts_absorb_qdict : QDict -> option Error.
Variable qemu_opt_get : QDict -> string -> option string.
Variable st_blocks : option handle -> Z.

Abbreviation registered :=
  (bdrv_gluster_init uri_parse query_params_parse CONFIG_GLUSTERFS_ZEROFILL
     CONFIG_GLUSTERFS_DISCARD QDict qemu_opts_absorb_qdict qemu_opt_get
     st_blocks []).
Abbreviation gopen :=
  (qemu_gluster_open uri_parse query_params_parse QDict
     qemu_opts_absorb_qdict qemu_opt_get).

(** [X19] Truncate, the length query and the allocated-size query each
    ask the library once and touch no handle and no record.  A negative
    answer makes each return minus the [errno] the call left; otherwise
    truncate returns 0 (also for a positive answer), the length query
    returns the offset the library gave, and the allocated-size query
    returns [st_blocks * 512], exact for a block count below 2^54. *)
Theorem sync_operations_status (s : BDRVGlusterState) (offset : Z)
    (w : World) :
  0 <= st_blocks (fd s) < 2 ^ 54 ->
  let answer := o_ret (replies w 0%nat) in
  let t := qemu_gluster_truncate s offset w in
  let l := qemu_gluster_getlength s w in
  let a := qemu_gluster_allocated_file_size st_blocks s w in
  (if answer <? 0
   then fst t = - errno_after 1 w /\ fst l = - errno_after 1 w /\
        fst a = - errno_after 1 w
   else fst t = 0 /\ fst l = answer /\ fst a = st_blocks (fd s) * 512) /\
  (forall w', w' = snd t \/ w' = snd l \/ w' = snd a ->
     volumes w' = volumes w /\ files w' = files w /\ heap w' = heap w /\
     bhs w' = bhs w /\ err w' = err w /\
     replies w' = later_replies 1 w /\ errno w' = errno_after 1 w).
Proof.
  intros Hb answer t l a.
  assert (Ht : t = qemu_gluster_truncate s offset w) by reflexivity.
  assert (Hl : l = qemu_gluster_getlength s w) by reflexivity.
  assert (Ha : a = qemu_gluster_allocated_file_size st_blocks s w)
    by reflexivity.
  clearbody t l a.
  unfold qemu_gluster_truncate, qemu_gluster_getlength,
    qemu_gluster_allocated_file_size, glfs_fstat, glfs_lseek,
    glfs_ftruncate_null in Ht, Hl, Ha.
  run_driver_in Ht. run_driver_in Hl. run_driver_in Ha.
  cbn -[to_int64] in Ht, Hl, Ha. subst answer.
  rewrite (to_int64_blocks _ Hb) in Ha.
  destruct (fd s) as [f|]; cbn in Ht;
    destruct (o_ret (replies w 0%nat) <? 0); cbn in Ht, Hl, Ha;
    subst t l a; cbn;
    (split; [auto|]); intros w' [-> | [-> | ->]]; cbn; auto 10.
Qed.

(** [X20] The instance that open fills serves the later calls: after an
    open that succeeded, the file handle [glfs_open] returned is live and
    in the instance; truncate truncates that handle, returning 0 or minus
    the [errno] of the call; each of the five coroutine operations hands
    the library a request on that handle; and close closes that handle
    and finalizes the volume. *)
Theorem opened_instance_serves_requests (s0 : BDRVGlusterState)
    (options : QDict) (bdrv_flags : Z) (w : World) (self : handle)
    (op : io_op) (offset : Z) :
  qemu_opts_absorb_qdict options = None ->
  init_failure uri_parse query_params_parse gconf_zero
    (qemu_opt_get options "filename"%string) w = None ->
  o_ret (replies w 4%nat) = 0 ->
  INT_MIN <= nb_sectors_of op <= INT_MAX ->
  let r := gopen s0 options bdrv_flags w in
  let s := snd (fst r) in
  let g := fresh (volumes w ∪ files w) in
  let f := fresh (({[g]} ∪ volumes w) ∪ files w) in
  let t := qemu_gluster_truncate s offset (snd r) in
  fd s = Some f /\ f ∈ files (snd r) /\ g ∈ volumes (snd r) /\
  fst t = (if o_ret (replies w 5%nat) <? 0 then - errno_after 6 w else 0) /\
  new_events (snd r) (snd t) = [Ev_ftruncate f (to_int64 offset)] /\
  (exists data rec,
      new_events (snd r) (snd (run_op self s op (snd r)))
      = [Ev_async (Some f) (request_of op) data rec]) /\
  new_events (snd r) (snd (qemu_gluster_close s (snd r)))
  = [Ev_close f; Ev_fini g].
Proof.
  intros Habs Hboot Hopen Hnb r s g f t.
  destruct (open_after_bootstrap uri_parse query_params_parse QDict
              qemu_opts_absorb_qdict qemu_opt_get s0 options bdrv_flags w
              Habs Hboot) as (Hres & Hvol & Hfiles & Herrno & Hrep & _).
  fold r g f in Hres, Hvol, Hfiles, Herrno, Hrep.
  apply Z.eqb_eq in Hopen. rewrite Hopen in Hres, Hvol, Hfiles, Herrno, Hrep.
  cbn [negb andb] in Hvol, Herrno, Hrep.
  assert (Hs : s = {| glfs := Some g; fd := Some f |})
    by (subst s; rewrite Hres; reflexivity).
  clearbody s. subst s.
  split; [reflexivity|].
  split; [rewrite Hfiles; apply in_added|].
  split; [rewrite Hvol; apply in_added|].
  destruct (truncate_effect {| glfs := Some g; fd := Some f |} offset
              (snd r)) as (Hst & Hev & _).
  fold t in Hst, Hev.
  split.
  { rewrite Hst, Hrep. unfold later_replies. cbn [Nat.add].
    change (errno_after 1 (snd r))
      with (match o_errno (replies (snd r) 0%nat) with
            | Some e => e
            | None => errno (snd r)
            end).
    rewrite Hrep, Herrno. reflexivity. }
  split; [exact Hev|].
  split.
  { rewrite (run_op_submit self _ op (snd r) Hnb). cbn [fd].
    eexists _, _. apply new_events_app.
    destruct (o_ret (replies (snd r) 0%nat) <? 0); reflexivity. }
  destruct (close_effect {| glfs := Some g; fd := Some f |} (snd r))
    as (_ & _ & _ & Hcl & _).
  exact Hcl.
Qed.

(** [X21] Registration and the parser agree on the schemes.  The four
    registered drivers carry the protocol names [gluster], [gluster+tcp],
    [gluster+unix] and [gluster+rdma]; a URI whose scheme is none of the
    registered names is rejected by the parser with [-EINVAL], the
    descriptor untouched; and for each registered name there is a URI of
    that scheme which the parser accepts. *)
Theorem registered_protocols_are_parsed_schemes :
  (forall (parse : option string -> option URI)
          (params : option string -> QueryParams) gconf filename uri sch,
      parse filename = Some uri ->
      uri_scheme uri = Some sch ->
      ~ In sch (map (protocol_name QDict) registered) ->
      qemu_gluster_parseuri parse params gconf filename
      = (- EINVAL, gconf)) /\
  (forall d, In d registered ->
     exists uri params,
       uri_scheme uri = Some (protocol_name QDict d) /\
       fst (qemu_gluster_parseuri (parse_as uri) (query_as params)
              gconf_zero None) = 0).
Proof.
  split.
  - intros parse params gconf filename uri sch Hp Hsch Hnot.
    rewrite parseuri_by_transport, Hp.
    assert (Hk : known_transport (uri_scheme uri) = None).
    { rewrite Hsch. unfold known_transport.
      repeat match goal with
             | |- context [String.eqb sch ?x] =>
                 destruct (String.eqb_spec sch x) as [-> | _];
                 [elim Hnot; cbn; tauto|]
             end.
      reflexivity. }
    rewrite Hk. reflexivity.
  - intros d [<- | [<- | [<- | [<- | []]]]].
    + exists (with_scheme (Some "gluster"%string) tcp_example_uri), [].
      split; reflexivity.
    + exists tcp_example_uri, []. split; reflexivity.
    + exists unix_example_uri, unix_example_query. split; reflexivity.
    + exists (with_scheme (Some "gluster+rdma"%string) tcp_example_uri), [].
      split; reflexivity.
Qed.

(** [X22] Zero-fill support is the same in the table and in create.  For
    every registered driver: when its table has no [bdrv_co_write_zeroes]
    entry, its create rejects every parameter list that asks for
    [preallocation=full], with [-EINVAL] and the preallocation
    diagnostic once the bootstrap went through; when it has the entry,
    it is [qemu_gluster_co_write_zeroes] and a lone
    [preallocation=full] is accepted by the scan. *)
Theorem zero_fill_support_is_consistent (d : BlockDriver QDict) :
  In d registered ->
  (bdrv_co_write_zeroes QDict d = None ->
   forall filename options o w,
     In o options -> opt_name o = BLOCK_OPT_PREALLOC ->
     value_s o = Some "full"%string ->
     init_failure uri_parse query_params_parse gconf_zero filename w
     = None ->
     fst (bdrv_create QDict d filename options w) = - EINVAL /\
     exists mode,
       err (snd (bdrv_create QDict d filename options w))
       = Some (Invalid_preallocation mode)) /\
  (bdrv_co_write_zeroes QDict d <> None ->
   bdrv_co_write_zeroes QDict d = Some qemu_gluster_co_write_zeroes /\
   create_options_loop CONFIG_GLUSTERFS_ZEROFILL
     [prealloc_option (Some "full"%string)] 0 0 = inr (0, 1)).
Proof.
  intros Hd.
  assert (Hz : bdrv_co_write_zeroes QDict d
               = (if CONFIG_GLUSTERFS_ZEROFILL
                  then Some qemu_gluster_co_write_zeroes else None) /\
               bdrv_create QDict d
               = qemu_gluster_create uri_parse query_params_parse
                   CONFIG_GLUSTERFS_ZEROFILL).
  { destruct Hd as [<- | [<- | [<- | [<- | []]]]]; split; reflexivity. }
  destruct Hz as (Hz & Hc). rewrite Hz, Hc. split.
  - intros Hnone filename options o w Hin Hname Hfull Hboot.
    assert (Hzf : CONFIG_GLUSTERFS_ZEROFILL = false).
    { revert Hnone. case CONFIG_GLUSTERFS_ZEROFILL;
        [discriminate | reflexivity]. }
    assert (Hrej : prealloc_rejected CONFIG_GLUSTERFS_ZEROFILL o).
    { split; [exact Hname|]. left. split; assumption. }
    destruct (scan_rejects CONFIG_GLUSTERFS_ZEROFILL options o Hin Hrej 0 0)
      as (mode & Hs).
    destruct (create_scan_rejected uri_parse query_params_parse
                CONFIG_GLUSTERFS_ZEROFILL filename options w mode Hboot Hs)
      as (Hret & Herr & _).
    split; [exact Hret|]. exists mode. exact Herr.
  - case CONFIG_GLUSTERFS_ZEROFILL; [|intros H; elim H; reflexivity].
    intros _. split; reflexivity.
Qed.

End TableProperties.

Lemma sync_operations_status_witness :
  fst (qemu_gluster_getlength {| glfs := Some 1%positive;
                                 fd := Some 2%positive |}
         (world0 (script [{| o_ret := 1048576; o_errno := None |}])))
  = 1048576 /\
  fst (qemu_gluster_allocated_file_size (fun _ => 8)
         {| glfs := Some 1%positive; fd := Some 2%positive |}
         (world0 (script [{| o_ret := 1048576; o_errno := None |}])))
  = 4096.
Proof.
  destruct (sync_operations_status (fun _ => 8)
              {| glfs := Some 1%positive; fd := Some 2%positive |} 0
              (world0 (script [{| o_ret := 1048576; o_errno := None |}])))
    as ((_ & Hl & Ha) & _).
  - lia.
  - split; [exact Hl | exact Ha].
Defined.

Lemma opened_instance_serves_requests_witness :
  new_events (snd (example_open (world0 (script []))))
    (snd (qemu_gluster_truncate
            (snd (fst (example_open (world0 (script []))))) 4096
            (snd (example_open (world0 (script []))))))
  = [Ev_ftruncate
       (fresh (({[fresh (volumes (world0 (script []))
                         ∪ files (world0 (script [])))]}
                ∪ volumes (world0 (script [])))
               ∪ files (world0 (script []))))
       (to_int64 4096)].
Proof.
  unfold example_open.
  destruct (opened_instance_serves_requests (parse_as tcp_example_uri)
              (query_as []) unit (fun _ => None)
              (fun _ _ => tcp_example_filename)
              {| glfs := None; fd := None |} tt BDRV_O_RDWR
              (world0 (script [])) 7%positive Op_flush_to_disk 4096
              eq_refl eq_refl eq_refl)
    as (_ & _ & _ & _ & Hev & _).
  - unfold INT_MIN, INT_MAX. simpl. lia.
  - exact Hev.
Defined.

Lemma zero_fill_support_is_consistent_witness :
  fst (bdrv_create unit
         (bdrv_gluster_tcp (parse_as tcp_example_uri) (query_as []) false
            false unit (fun _ => None) (fun _ _ => None) (fun _ => 0))
         tcp_example_filename [prealloc_option (Some "full"%string)]
         (world0 (script []))) = - EINVAL.
Proof.
  destruct (zero_fill_support_is_consistent (parse_as tcp_example_uri)
              (query_as []) false false unit (fun _ => None)
              (fun _ _ => None) (fun _ => 0)
              (bdrv_gluster_tcp (parse_as tcp_example_uri) (query_as [])
                 false false unit (fun _ => None) (fun _ _ => None)
                 (fun _ => 0))) as (H & _).
  - right. left. reflexivity.
  - destruct (H eq_refl tcp_example_filename
                [prealloc_option (Some "full"%string)]
                (prealloc_option (Some "full"%string))
                (world0 (script [])) (or_introl eq_refl) eq_refl eq_refl
                eq_refl) as (Hret & _).
    exact Hret.
Defined.

(** ** Create parameters and the declared options *)

Lemma scan_skips_undeclared zf options :
  forall ts p,
    create_options_loop zf (List.filter declared_option options) ts p
    = create_options_loop zf options ts p.
Proof.
  induction options as [|o options IH]; intros ts p; [reflexivity|].
  cbn [List.filter]. unfold declared_option at 1.
  cbn [existsb qemu_gluster_create_options co_name].
  rewrite orb_false_r. cbn [create_options_loop].
  destruct (streq (opt_name o) BLOCK_OPT_SIZE) eqn:Hsize; cbn [orb].
  { cbn [create_options_loop]. rewrite Hsize. apply IH. }
  destruct (streq (opt_name o) BLOCK_OPT_PREALLOC) eqn:Hpre; [|apply IH].
  cbn [create_options_loop]. rewrite Hsize, Hpre.
  destruct (value_s o) as [m|]; [|apply IH].
  destruct (streq m "off"); [apply IH|].
  destruct (streq m "full" && gluster_supports_zerofill zf);
    [apply IH | reflexivity].
Qed.

(** [X23] Create reads the parameters that [qemu_gluster_create_options]
    declares, [size] and [preallocation], and no other: dropping every
    entry of another name from the parameter list changes neither the
    result of the scan nor anything create does or returns. *)
Theorem create_reads_declared_options_only
    (uri_parse : option string -> option URI)
    (query_params_parse : option string -> QueryParams) (zf : bool)
    (filename : option string) (options : list QEMUOptionParameter)
    (w : World) :
  map co_name qemu_gluster_create_options
  = [BLOCK_OPT_SIZE; BLOCK_OPT_PREALLOC] /\
  create_options_loop zf (List.filter declared_option options) 0 0
  = create_options_loop zf options 0 0 /\
  qemu_gluster_create uri_parse query_params_parse zf filename
    (List.filter declared_option options) w
  = qemu_gluster_create uri_parse query_params_parse zf filename options w.
Proof.
  split; [reflexivity|]. split; [apply scan_skips_undeclared|].
  unfold qemu_gluster_create, mbind.
  destruct (qemu_gluster_init _ _ _ _ w) as [[[g|] gc] w1];
    [|reflexivity].
  rewrite scan_skips_undeclared. reflexivity.
Qed.
